(** * Human-demonstration collection: teleoperation loop and HDF5 aggregation

    A shallow embedding of [robosuite/scripts/collect_human_demonstrations.py]:
    - [Teleop]: the deadzone clamp and the success latch of
      [collect_human_trajectory], the foreground loop as a function of what
      the device, the environment and the tick counter answer, and the two
      threads ([collect_human_trajectory] and [EnvRunner.run_step]) as an
      interleaving transition system over the lock, the action slot, the
      stop event and the global [current_timestamps];
    - [Gather]: [gather_demonstrations_as_hdf5] as a state-passing function
      over the contents of the output file.

    The facts follow the definitions: [LoopFacts] and [LoopMore] (the
    deadzone, the latch and the ways out of the loop), [GatherFacts],
    [GatherMore] and [GatherOrder] (the aggregation, its errors and the
    order of the listing), [ThreadFacts] and [ThreadMore] (the lock, the
    tick counter, the cleanup and the exceptions that skip it).  Line
    numbers are those of the script. *)

From Stdlib Require Import ZArith Floats.
From stdpp Require Import gmap strings list pretty.
From stdpp Require Import sorting.

Local Open Scope Z_scope.

Module Teleop.

(** ** Actions and the deadzone (lines 77, 102-106) *)

(** A numpy float64 vector. *)
Abbreviation action := (list float) (only parsing).

(** The float64 nearest to the decimal literal [0.1]. *)
Definition tenth : float := 0x1.999999999999ap-4%float.

(** [deadzone = np.array([0, 0, 0, 0.1, 0.1, 0.1])] *)
Definition deadzone : list float :=
  [0%float; 0%float; 0%float; tenth; tenth; tenth].

(** One component of [(-deadzone < tmp_xyz) & (tmp_xyz < deadzone)]. *)
Definition is_dead (d x : float) : bool :=
  PrimFloat.ltb (PrimFloat.opp d) x && PrimFloat.ltb x d.

(** One component of [tmp_xyz[is_dead] = 0]. *)
Definition zero_dead (d x : float) : float :=
  if is_dead d x then 0%float else x.

(** Lines 103-106.  [action[:6]] is a view of at most six components; the
    comparison with the six-component [deadzone] raises when the shapes do
    not agree, which is [None] here.  The view is written through, so the
    components from the seventh on are the caller's.  Actions are values
    here: the array that [input2action] returns is taken to be a new one at
    each call, so that the writes of line 105 do not reach the array the
    slot still refers to. *)
Definition clamp_deadzone (a : action) : option action :=
  let tmp_xyz := take 6 a in
  if decide (length tmp_xyz = length deadzone)
  then Some (zip_with zero_dead deadzone tmp_xyz ++ drop 6 a)
  else None.

(** ** The success latch (lines 89, 117-127) *)

(** [EnvRunner(env)] is built with the default [freq=50]. *)
Definition freq : Z := 50.

(** [max_steps = 10 * env_runner.freq] *)
Definition max_steps : Z := 10 * freq.

(** [task_completion_hold_count = -1] *)
Definition hold_init : Z := -1.

(** Lines 121-127: the new value of [task_completion_hold_count], given the
    answer of [env._check_success()]. *)
Definition latch (hold : Z) (success : bool) : Z :=
  if success
  then (if 0 <? hold then hold - 1 else 10)
  else -1.

(** ** The robot under control (line 96)

    [env.robots[0] if env_configuration == "bimanual" else
    env.robots[arm == "left"]]: the comparison is used as an index, [True]
    being 1; [None] is the [IndexError] of an index past the list. *)
Definition active_robot {R : Type} (robots : list R)
    (arm env_configuration : string) : option R :=
  if String.eqb env_configuration "bimanual" then robots !! 0%nat
  else robots !! (if String.eqb arm "left" then 1%nat else 0%nat).

(** What line 96 reads of the arguments of [collect_human_trajectory]: how
    many robots [env.robots] holds, [arm] and [env_configuration]. *)
Record call := {
  robots : nat;
  arm : string;
  env_configuration : string
}.

(** Line 96 for a call, the robots told apart by their place in
    [env.robots]. *)
Definition robot_of (cl : call) : option nat :=
  active_robot (seq 0 (robots cl)) (arm cl) (env_configuration cl).

(** ** The foreground loop, sequentially (lines 94-131)

    One record per iteration: what [input2action] returns when it is called
    ([None] is the device's reset), what [env._check_success()] answers if
    it is asked, and the value [current_timestamps] has when line 129 reads
    it. *)
Record tick := {
  device : option action;
  check_success : bool;
  timestamps : Z
}.

(** Why the loop was left. *)
Inductive exit :=
| Aborted      (* line 109: [action is None], the device's reset *)
| Completed    (* line 118: [task_completion_hold_count == 0] *)
| TimedOut     (* line 131: [current_timestamps >= max_steps] *)
| ShapeError   (* lines 104-105 raise: fewer than six components *)
| IndexError.  (* line 96 raises: [env.robots] has no such robot *)

(** What the loop did: the actions handed to [set_action], in order, the
    values [task_completion_hold_count] was given by lines 121-127 (one per
    call of [_check_success]), in order, and how the loop ended ([None]:
    still looping when the recorded ticks ran out). *)
Record run := {
  pushed : list action;
  holds : list Z;
  ended : option exit
}.

Definition push (a : action) (r : run) : run :=
  {| pushed := a :: pushed r; holds := holds r; ended := ended r |}.

Definition held (h : Z) (r : run) : run :=
  {| pushed := pushed r; holds := h :: holds r; ended := ended r |}.

Definition stop (e : exit) : run :=
  {| pushed := []; holds := []; ended := Some e |}.

Fixpoint collect_loop (cl : call) (hold : Z) (ticks : list tick) : run :=
  match ticks with
  | [] => {| pushed := []; holds := []; ended := None |}
  | t :: rest =>
      match robot_of cl with
      | None => stop IndexError
      | Some _ =>
          match device t with
          | None => stop Aborted
          | Some a =>
              match clamp_deadzone a with
              | None => stop ShapeError
              | Some a' =>
                  push a'
                    (if hold =? 0 then stop Completed
                     else
                       let hold' := latch hold (check_success t) in
                       held hold'
                         (if max_steps <=? timestamps t then stop TimedOut
                          else collect_loop cl hold' rest))
              end
          end
      end
  end.

(** ** The two threads, interleaved

    [collect_human_trajectory] from line 91 on (the controller) and
    [EnvRunner.run_step] (the stepper), one transition per access to what
    they share: the lock, [self.action], [stop_event], the global
    [current_timestamps] and the environment. *)

Inductive thread := Controller | Stepper.

Global Instance thread_eq_dec : EqDecision thread.
Proof. solve_decision. Defined.

(** Where the controller is. *)
Inductive ctl_pc :=
| CInput                 (* lines 96-109: robot, [input2action], clamp *)
| CAcquire (a : action)  (* line 43: entering [with self.lock] *)
| CAssign (a : action)   (* line 44: [self.action = action] *)
| CRelease               (* line 44: leaving [with self.lock] *)
| CRender                (* line 114 *)
| CHoldTest              (* line 117 *)
| CLatch                 (* lines 121-127 *)
| CBudget                (* line 129 *)
| CZero                  (* line 130 *)
| CStop                  (* line 138 *)
| CJoin                  (* line 139 *)
| CClose                 (* line 140 *)
| CReturned
| XStop                  (* line 133 *)
| XJoin                  (* line 134 *)
| XRaise                 (* line 135 *)
| XRaised
| CCrashed.              (* an exception that line 132 does not catch *)

(** Where the stepper is. *)
Inductive stp_pc :=
| SWhile                 (* line 49 *)
| SAcquire               (* line 51: entering [with self.lock] *)
| STest                  (* line 52 *)
| SStep                  (* line 53 *)
| SLoad                  (* line 54: the read of [current_timestamps += 1] *)
| SStore (v : Z)         (* line 54: the write of [current_timestamps += 1] *)
| SRelease               (* line 54: leaving [with self.lock] *)
| SSleep                 (* lines 56-61 *)
| SExited.

Record state := {
  ctl : ctl_pc;
  stp : stp_pc;
  lock : option thread;          (* who holds [self.lock] *)
  slot : option action;          (* [self.action] *)
  ticks : Z;                     (* [current_timestamps] *)
  stop_event : bool;
  hold : Z;                      (* [task_completion_hold_count] *)
  args : call                    (* what the call was given *)
}.

(** What a transition does. *)
Inductive event :=
| NoRobot                          (* line 96 raised [IndexError] *)
| Input (a : option action)        (* [input2action] returned [a] *)
| Acquire (t : thread)             (* [self.lock] taken *)
| Release (t : thread)             (* [self.lock] given back *)
| SetAction (a : action)           (* [self.action = action] *)
| TestAction                       (* [self.action is not None] *)
| EnvStep (a : action)             (* [self.env.step(self.action)] *)
| ReadTicks (t : thread) (v : Z)   (* [current_timestamps] read as [v] *)
| WriteTicks (t : thread) (v : Z)  (* [current_timestamps] set to [v] *)
| Render                           (* [env.render()] *)
| HoldTest (zero : bool)           (* [task_completion_hold_count == 0] *)
| CheckSuccess (b : bool)          (* [env._check_success()] returned [b] *)
| StopSet                          (* [stop_event.set()] *)
| StopRead (b : bool)              (* [stop_event.is_set()] returned [b] *)
| Sleep                            (* lines 56-61 *)
| Join                             (* [step_thread.join()] returned *)
| Close                            (* [env.close()] *)
| Interrupt                        (* a [KeyboardInterrupt] reaches line 132 *)
| Raise.                           (* [raise e] *)

(** What reaches the controller from outside at a step: nothing, the answer
    of [input2action], the answer of [env._check_success()], or a
    [KeyboardInterrupt]. *)
Inductive stimulus :=
| Plain
| FromDevice (a : option action)
| Success (b : bool)
| CtrlC.

Definition ctl_to (pc : ctl_pc) (s : state) : state :=
  {| ctl := pc; stp := stp s; lock := lock s; slot := slot s;
     ticks := ticks s; stop_event := stop_event s; hold := hold s;
     args := args s |}.

Definition stp_to (pc : stp_pc) (s : state) : state :=
  {| ctl := ctl s; stp := pc; lock := lock s; slot := slot s;
     ticks := ticks s; stop_event := stop_event s; hold := hold s;
     args := args s |}.

Definition set_lock (l : option thread) (s : state) : state :=
  {| ctl := ctl s; stp := stp s; lock := l; slot := slot s;
     ticks := ticks s; stop_event := stop_event s; hold := hold s;
     args := args s |}.

Definition set_slot (a : option action) (s : state) : state :=
  {| ctl := ctl s; stp := stp s; lock := lock s; slot := a;
     ticks := ticks s; stop_event := stop_event s; hold := hold s;
     args := args s |}.

Definition set_ticks (v : Z) (s : state) : state :=
  {| ctl := ctl s; stp := stp s; lock := lock s; slot := slot s;
     ticks := v; stop_event := stop_event s; hold := hold s;
     args := args s |}.

Definition set_stop_event (b : bool) (s : state) : state :=
  {| ctl := ctl s; stp := stp s; lock := lock s; slot := slot s;
     ticks := ticks s; stop_event := b; hold := hold s;
     args := args s |}.

Definition set_hold (h : Z) (s : state) : state :=
  {| ctl := ctl s; stp := stp s; lock := lock s; slot := slot s;
     ticks := ticks s; stop_event := stop_event s; hold := h;
     args := args s |}.

(** The controller is inside the [try] of lines 93-131. *)
Definition in_try (pc : ctl_pc) : bool :=
  match pc with
  | CInput | CAcquire _ | CAssign _ | CRelease | CRender | CHoldTest
  | CLatch | CBudget | CZero => true
  | _ => false
  end.

(** The controller is inside [with self.lock] of [set_action]. *)
Definition ctl_in_with (pc : ctl_pc) : bool :=
  match pc with
  | CAssign _ | CRelease => true
  | _ => false
  end.

(** One step of the controller; [None] when it cannot move (the lock is
    taken, the stepper has not finished, the function is over) or the
    stimulus is not one its position takes.  At the head of the loop line 96
    comes first: without its robot the iteration raises before
    [input2action] is called. *)
Definition ctl_step (x : stimulus) (s : state) : option (event * state) :=
  match x, ctl s with
  | CtrlC, pc =>
      if in_try pc
      then Some (Interrupt,
                 ctl_to XStop (if ctl_in_with pc then set_lock None s else s))
      else None
  | Plain, CInput =>
      match robot_of (args s) with
      | None => Some (NoRobot, ctl_to CCrashed s)
      | Some _ => None
      end
  | FromDevice d, CInput =>
      match robot_of (args s) with
      | None => None
      | Some _ =>
          match d with
          | None => Some (Input None, ctl_to CStop s)
          | Some a =>
              Some (Input (Some a),
                    match clamp_deadzone a with
                    | Some a' => ctl_to (CAcquire a') s
                    | None => ctl_to CCrashed s
                    end)
          end
      end
  | Plain, CAcquire a =>
      match lock s with
      | None => Some (Acquire Controller,
                      ctl_to (CAssign a) (set_lock (Some Controller) s))
      | Some _ => None
      end
  | Plain, CAssign a =>
      Some (SetAction a, ctl_to CRelease (set_slot (Some a) s))
  | Plain, CRelease =>
      Some (Release Controller, ctl_to CRender (set_lock None s))
  | Plain, CRender => Some (Render, ctl_to CHoldTest s)
  | Plain, CHoldTest =>
      Some (HoldTest (hold s =? 0),
            ctl_to (if hold s =? 0 then CStop else CLatch) s)
  | Success b, CLatch =>
      Some (CheckSuccess b, ctl_to CBudget (set_hold (latch (hold s) b) s))
  | Plain, CBudget =>
      Some (ReadTicks Controller (ticks s),
            ctl_to (if max_steps <=? ticks s then CZero else CInput) s)
  | Plain, CZero =>
      Some (WriteTicks Controller 0, ctl_to CStop (set_ticks 0 s))
  | Plain, CStop => Some (StopSet, ctl_to CJoin (set_stop_event true s))
  | Plain, CJoin =>
      match stp s with
      | SExited => Some (Join, ctl_to CClose s)
      | _ => None
      end
  | Plain, CClose => Some (Close, ctl_to CReturned s)
  | Plain, XStop => Some (StopSet, ctl_to XJoin (set_stop_event true s))
  | Plain, XJoin =>
      match stp s with
      | SExited => Some (Join, ctl_to XRaise s)
      | _ => None
      end
  | Plain, XRaise => Some (Raise, ctl_to XRaised s)
  | _, _ => None
  end.

(** One step of the stepper; [None] when it cannot move. *)
Definition stp_step (s : state) : option (event * state) :=
  match stp s with
  | SWhile =>
      Some (StopRead (stop_event s),
            stp_to (if stop_event s then SExited else SAcquire) s)
  | SAcquire =>
      match lock s with
      | None => Some (Acquire Stepper, stp_to STest (set_lock (Some Stepper) s))
      | Some _ => None
      end
  | STest =>
      Some (TestAction,
            stp_to (match slot s with Some _ => SStep | None => SRelease end) s)
  | SStep =>
      match slot s with
      | Some a => Some (EnvStep a, stp_to SLoad s)
      | None => None
      end
  | SLoad => Some (ReadTicks Stepper (ticks s), stp_to (SStore (ticks s)) s)
  | SStore v =>
      Some (WriteTicks Stepper (v + 1), stp_to SRelease (set_ticks (v + 1) s))
  | SRelease => Some (Release Stepper, stp_to SSleep (set_lock None s))
  | SSleep => Some (Sleep, stp_to SWhile s)
  | SExited => None
  end.

(** Which thread runs next, and with what stimulus. *)
Inductive choice :=
| RunStepper
| RunController (x : stimulus).

Definition step (c : choice) (s : state) : option (event * state) :=
  match c with
  | RunStepper => stp_step s
  | RunController x => ctl_step x s
  end.

(** A schedule run from [s]: the events in order and the state reached;
    [None] when some choice cannot move. *)
Fixpoint exec (sched : list choice) (s : state) : option (list event * state) :=
  match sched with
  | [] => Some ([], s)
  | c :: rest =>
      match step c s with
      | None => None
      | Some (e, s1) =>
          match exec rest s1 with
          | None => None
          | Some (es, s2) => Some (e :: es, s2)
          end
      end
  end.

(** The state after line 90: the stepper thread is started, nothing is in
    the slot, [current_timestamps] is 0 (set by line 319 before each call). *)
Definition init (cl : call) : state :=
  {| ctl := CInput; stp := SWhile; lock := None; slot := None;
     ticks := 0; stop_event := false; hold := hold_init; args := cl |}.

(** The thread an event belongs to. *)
Definition actor (e : event) : thread :=
  match e with
  | Acquire t | Release t | ReadTicks t _ | WriteTicks t _ => t
  | TestAction | EnvStep _ | StopRead _ | Sleep => Stepper
  | _ => Controller
  end.

(** The events that read or write the action slot or the tick counter, or
    apply the slot's action to the simulation. *)
Definition touches_shared (e : event) : bool :=
  match e with
  | SetAction _ | TestAction | EnvStep _ | ReadTicks _ _ | WriteTicks _ _ => true
  | _ => false
  end.

(** The stepper is inside [with self.lock] of [run_step]. *)
Definition stp_in_with (pc : stp_pc) : bool :=
  match pc with
  | STest | SStep | SLoad | SStore _ | SRelease => true
  | _ => false
  end.

(** The stepper is between line 53 and the end of line 54: the simulation
    has been stepped, the counter is not written yet. *)
Definition stp_counting (pc : stp_pc) : bool :=
  match pc with
  | SLoad | SStore _ => true
  | _ => false
  end.

(** The controller's events of a trace. *)
Definition ctl_events (es : list event) : list event :=
  filter (λ e, actor e = Controller) es.

(** The actions the simulation was stepped with, in order. *)
Definition env_steps (es : list event) : list action :=
  omap (λ e, match e with EnvStep a => Some a | _ => None end) es.

(** The action of the last [self.action = action]. *)
Definition last_set (es : list event) : option action :=
  last (omap (λ e, match e with SetAction a => Some a | _ => None end) es).

(** Line 130, the controller's write of the counter. *)
Definition is_reset (e : event) : bool :=
  match e with
  | WriteTicks Controller _ => true
  | _ => false
  end.


(** How far the controller is into lines 133-140: whether it came by
    line 138 (and not by the handler of line 132), and the events of those
    lines it has done. *)
Definition cleanup_done (pc : ctl_pc) : option (bool * list event) :=
  match pc with
  | CStop => Some (true, [])
  | CJoin => Some (true, [StopSet])
  | CClose => Some (true, [StopSet; Join])
  | CReturned => Some (true, [StopSet; Join; Close])
  | XStop => Some (false, [])
  | XJoin => Some (false, [StopSet])
  | XRaise => Some (false, [StopSet; Join])
  | XRaised => Some (false, [StopSet; Join; Raise])
  | _ => None
  end.


(** The lock is held by the thread that is inside its [with] block, and by
    no one when neither is. *)
Definition lock_owner (s : state) : Prop :=
  lock s = (if ctl_in_with (ctl s) then Some Controller
            else if stp_in_with (stp s) then Some Stepper
            else None)
  ∧ (ctl_in_with (ctl s) = true → stp_in_with (stp s) = false).

(** Who holds the lock when an event happens. *)
Definition holder_at (e : event) (l : option thread) : Prop :=
  match e with
  | SetAction _ => l = Some Controller
  | TestAction | EnvStep _ | ReadTicks Stepper _ | WriteTicks Stepper _ =>
      l = Some Stepper
  | ReadTicks Controller _ | WriteTicks Controller _ => l ≠ Some Controller
  | _ => True
  end.

(** Until the controller writes the counter, the counter is the number of
    simulation steps, less the one whose increment is under way. *)
Definition counted (es : list event) (s : state) : Prop :=
  Forall (λ e, is_reset e = false) es →
  ticks s + (if stp_counting (stp s) then 1 else 0)
    = Z.of_nat (length (env_steps es))
  ∧ ∀ v, stp s = SStore v → v = ticks s.



(** ** The two statements of the specification about the threads *)

(** "All accesses to the action slot and the tick counter are serialized by
    the lock": whoever touches them holds it. *)
Definition all_accesses_locked : Prop :=
  ∀ cl sched es s c e s',
    exec sched (init cl) = Some (es, s) →
    step c s = Some (e, s') →
    touches_shared e = true →
    lock s = Some (actor e).


(** From line 138 (or 133) on the stop event is set. *)
Definition stop_raised (s : state) : Prop :=
  match cleanup_done (ctl s) with
  | Some (_, _ :: _) => stop_event s = true
  | _ => True
  end.

(** Line 53 finds the action that line 52 saw. *)
Definition step_has_action (s : state) : Prop :=
  stp s = SStep → is_Some (slot s).

(** What the controller is about to store came from the device through
    the clamp. *)
Definition clamped_in_hand (es : list event) (s : state) : Prop :=
  ∀ a', ctl s = CAcquire a' ∨ ctl s = CAssign a' →
    ∃ a, Input (Some a) ∈ es ∧ clamp_deadzone a = Some a'.

(** ** Vocabulary of the statements about the loop *)

(** The thresholds of [deadzone]: [+0] or a positive finite number. *)
Definition threshold_like (d : spec_float) : Prop :=
  match d with
  | S754_zero false | S754_finite false _ _ => True
  | _ => False
  end.

(** A tick whose action is not the reset and has its six components. *)
Definition usable (t : tick) : Prop := is_Some (device t ≫= clamp_deadzone).

(** A usable tick on which the task is reported done, within the budget. *)
Definition passing (t : tick) : Prop :=
  usable t ∧ check_success t = true ∧ timestamps t < max_steps.

(** The latch over [n] passing ticks in a row, from [hold]. *)
Fixpoint latch_run (hold : Z) (n : nat) : list Z :=
  match n with
  | O => []
  | S n => latch hold true :: latch_run (latch hold true) n
  end.

(** The latch after [n] passing ticks in a row, from [hold]. *)
Fixpoint latch_after (hold : Z) (n : nat) : Z :=
  match n with
  | O => hold
  | S n => latch_after (latch hold true) n
  end.

(** ** Sample calls, ticks and schedules *)

(** The script's defaults: one robot, [--arm right] and
    [--config single-arm-opposed]. *)
Definition solo : call :=
  {| robots := 1; arm := "right"; env_configuration := "single-arm-opposed" |}.

(** One robot and [--arm left]: line 96 asks for a second robot. *)
Definition left_handed : call :=
  {| robots := 1; arm := "left"; env_configuration := "single-arm-opposed" |}.

(** A seven-component action: small translations, small and large
    rotations, the gripper. *)
Definition sample_action : action :=
  [0x1p-5%float; (-0x1p-5)%float; 0%float;
   0x1p-5%float; (-0x1p-2)%float; tenth; 1%float].

(** The seven-component zero action. *)
Definition zeros : list float := replicate 7 0%float.

(** A tick with the zero action, within the budget. *)
Definition still (b : bool) : tick :=
  {| device := Some zeros; check_success := b; timestamps := 0 |}.

(** An action of four components: too short for the clamp. *)
Definition short_action : list float := replicate 4 0%float.

(** The controller pushes one action and goes up to the budget test of
    line 129; the stepper enters its [with] block. *)
Definition race : list choice :=
  [RunController (FromDevice (Some zeros)); RunController Plain;
   RunController Plain; RunController Plain; RunController Plain;
   RunController Plain; RunController (Success false);
   RunStepper; RunStepper].

(** The controller pushes one action; the stepper takes the lock and finds
    the action. *)
Definition first_step : list choice :=
  [RunController (FromDevice (Some zeros)); RunController Plain;
   RunController Plain; RunController Plain;
   RunStepper; RunStepper; RunStepper].

(** The device's reset on the first iteration, then lines 138-140. *)
Definition aborted : list choice :=
  [RunController (FromDevice None); RunController Plain; RunStepper;
   RunController Plain; RunController Plain].

(** A [KeyboardInterrupt] on the first iteration, then lines 133-135. *)
Definition interrupted : list choice :=
  [RunController CtrlC; RunController Plain; RunStepper;
   RunController Plain; RunController Plain].

(** The state a schedule reaches in the call [solo], and the events on the
    way. *)
Definition state_of (sched : list choice) : state :=
  match exec sched (init solo) with
  | Some (_, s) => s
  | None => init solo
  end.

Definition trace_of (sched : list choice) : list event :=
  match exec sched (init solo) with
  | Some (es, _) => es
  | None => []
  end.

(** One iteration of the controller's loop on its own, with the answers of
    the tick [t]: lines 99-106, [set_action] (three steps), lines 114, 117,
    121-127 and 129. *)
Definition iteration (t : tick) : list choice :=
  [RunController (FromDevice (device t)); RunController Plain;
   RunController Plain; RunController Plain; RunController Plain;
   RunController Plain; RunController (Success (check_success t));
   RunController Plain].

(** The controller pushes one action and goes up to the budget test of
    line 129. *)
Definition to_budget_test : list choice :=
  [RunController (FromDevice (Some zeros)); RunController Plain;
   RunController Plain; RunController Plain; RunController Plain;
   RunController Plain; RunController (Success false)].

(** One iteration of the stepper's loop, lines 49-61. *)
Definition stepper_iteration : list choice := replicate 8 RunStepper.

(** The stepper does 500 iterations and reads the counter for the 501st
    increment; the controller finds the budget spent and zeroes the
    counter; the stepper writes its increment. *)
Definition lost_reset : list choice :=
  to_budget_test
  ++ concat (replicate 500 stepper_iteration)
  ++ replicate 5 RunStepper
  ++ [RunController Plain; RunController Plain; RunStepper].

(** ** Vocabulary of further statements about the threads *)

(** The values [task_completion_hold_count] can have. *)
Definition hold_range (h : Z) : Prop := h = -1 ∨ 0 ≤ h ≤ 10.

(** The stepper has passed line 49 and not yet done line 53 of the
    iteration it is in. *)
Definition before_step (pc : stp_pc) : bool :=
  match pc with
  | SAcquire | STest | SStep => true
  | _ => false
  end.

(** The simulation steps that follow the first [stop_event.set()] of a
    trace; none when there is no such event. *)
Fixpoint steps_after_stop (es : list event) : list action :=
  match es with
  | [] => []
  | StopSet :: rest => env_steps rest
  | _ :: rest => steps_after_stop rest
  end.

(** [stop_event.set()] *)
Definition is_stop (e : event) : bool :=
  match e with
  | StopSet => true
  | _ => false
  end.

(** The controller pushes [n] actions in a row while the stepper idles. *)
Definition pushes (n : nat) : list choice :=
  concat (replicate n (iteration (still false))).

(** Once the stop event is set it stays set, and the stepper has at most
    the step of the iteration it is in left to do. *)
Definition stopping (es : list event) (s : state) : Prop :=
  if existsb is_stop es
  then stop_event s = true ∧
       (length (steps_after_stop es)
        + (if before_step (stp s) then 1 else 0) ≤ 1)%nat
  else steps_after_stop es = [].

(** The controller pushes an action and, the stepper having taken the lock
    and found the action, leaves by the device's reset and sets the stop
    event; the stepper then does its step and increment and leaves. *)
Definition stop_in_mid_step : list choice :=
  first_step
  ++ [RunController Plain; RunController Plain; RunController (Success false);
      RunController Plain; RunController (FromDevice None);
      RunController Plain]
  ++ replicate 6 RunStepper.

(** While the controller is in the loop it has not reset the counter; and
    once it has found the budget spent, that many steps were applied. *)
Definition budget_spent (es : list event) (s : state) : Prop :=
  (in_try (ctl s) = true → Forall (λ e, is_reset e = false) es) ∧
  (ctl s = CZero ∨ existsb is_reset es = true →
   max_steps ≤ Z.of_nat (length (env_steps es))).

(** The stop event is set only from line 138 (or 133) on, and the stepper
    leaves only with the stop event set. *)
Definition unstopped (s : state) : Prop :=
  (stop_event s = true → ∃ n e tl, cleanup_done (ctl s) = Some (n, e :: tl)) ∧
  (stp s = SExited → stop_event s = true).

(** What is in the slot, and what the simulation was stepped with, came
    from the device through the clamp. *)
Definition all_clamped (es : list event) (s : state) : Prop :=
  (∀ a', slot s = Some a' ∨ a' ∈ env_steps es →
     ∃ a, Input (Some a) ∈ es ∧ clamp_deadzone a = Some a').

(** The schedule [first_step] and the stepper's step of line 53. *)
Definition first_step_done : list choice := first_step ++ [RunStepper].

(** With no action stored yet, the slot is empty, no step was applied, the
    counter is 0 and the stepper is not about to step or count. *)
Definition idle (es : list event) (s : state) : Prop :=
  last_set es = None →
  slot s = None ∧ env_steps es = [] ∧ ticks s = 0 ∧
  stp s ≠ SStep ∧ stp_counting (stp s) = false.

(** The stepper runs three iterations before the controller moves. *)
Definition idling : list choice := replicate 12 RunStepper.

(** The device's reset on the first iteration, the stepper in the middle
    of an idle iteration. *)
Definition abort_to_stop : list choice :=
  [RunStepper; RunStepper; RunController (FromDevice None)].

(** The evaluations of [_check_success] still needed from a latch value for
    the loop to complete. *)
Definition needed (hold : Z) : nat := if 0 <=? hold then Z.to_nat hold else 11.

(** Two ticks under the budget, then one at it. *)
Definition late_ticks : list tick :=
  [still false; still false;
   {| device := Some zeros; check_success := false; timestamps := 500 |}].

End Teleop.

Module Gather.

(** ** What the capture wrapper left on disk *)

(** A flat float64 vector: a simulation state, an action, a pose. *)
Abbreviation vec := (list float) (only parsing).

(** One element of [dic["action_infos"]]; only its ["actions"] entry is read. *)
Record action_info := { ai_actions : vec }.

(** One [state_*.npz] file, as [np.load] returns it. *)
Record chunk := {
  dic_env : string;
  dic_states : list vec;
  dic_action_infos : list action_info;
  dic_centric_obj_pose : list vec;
  dic_subtask_begin_index : list Z;
  dic_successful : bool
}.

(** One entry of [directory]: the paths [glob(state_paths)] yields, in the
    order it yields them, each with the file's contents, and the text of
    [model.xml] when that file is there. *)
Record ep_dir := {
  state_files : list (string * chunk);
  model_xml : option string
}.

(** [sorted(...)]: ascending by path, equal paths in their given order. *)
Fixpoint insert_by_path (f : string * chunk) (l : list (string * chunk))
  : list (string * chunk) :=
  match l with
  | [] => [f]
  | g :: l' => if String.leb f.1 g.1 then f :: l else g :: insert_by_path f l'
  end.

Definition sorted (l : list (string * chunk)) : list (string * chunk) :=
  foldr insert_by_path [] l.

(** The chunk records of an episode in the order line 188 loads them. *)
Definition chunks_of (ep : ep_dir) : list chunk := (sorted (state_files ep)).*2.

(** ** Lines 182-197: the per-episode accumulators *)

Record loaded := {
  env_name : option string;      (* [None] is Python's [None] *)
  states : list vec;
  actions : list vec;
  centric_obj_pose : list vec;
  subtask_begin_index : list Z;
  success : bool
}.

(** Lines 182-186, with [env_name] as the episodes before left it. *)
Definition fresh (env_name : option string) : loaded :=
  {| env_name := env_name; states := []; actions := [];
     centric_obj_pose := []; subtask_begin_index := []; success := true |}.

(** Lines 189-197, for one file. *)
Definition load_chunk (acc : loaded) (dic : chunk) : loaded :=
  {| env_name := Some (dic_env dic);
     states := states acc ++ dic_states dic;
     actions := actions acc ++ (ai_actions <$> dic_action_infos dic);
     centric_obj_pose := centric_obj_pose acc ++ dic_centric_obj_pose dic;
     subtask_begin_index := subtask_begin_index acc ++ dic_subtask_begin_index dic;
     success := success acc || dic_successful dic |}.

(** Lines 181-197. *)
Definition load_episode (env_name : option string) (ep : ep_dir) : loaded :=
  foldl load_chunk (fresh env_name) (chunks_of ep).

(** ** The output file *)

(** A value stored as an attribute.  The script stores strings; Python's
    [None] is not among the values: h5py has no type for it and raises. *)
Inductive pyval :=
| PyStr (s : string).

(** A dataset: [np.array] of a list of vectors or of a list of integers. *)
Inductive dataset :=
| Vectors (rows : list vec)
| Integers (xs : list Z).

(** A [demo_N] group. *)
Record group := {
  attrs : gmap string pyval;
  datasets : gmap string dataset
}.

(** The file: its one top-level group ["data"] (line 175), with the
    attributes and the child groups of that group. *)
Record h5file := {
  data_attrs : gmap string pyval;
  data_groups : gmap string group
}.

(** [h5py.File(hdf5_path, "w")] and [f.create_group("data")]: whatever was
    at the path is replaced. *)
Definition create (old : option h5file) : h5file :=
  {| data_attrs := ∅; data_groups := ∅ |}.

Definition empty_group : group := {| attrs := ∅; datasets := ∅ |}.

(** ["demo_{}".format(num_eps)] *)
Definition demo_name (num_eps : nat) : string := "demo_" +:+ pretty num_eps.

(** [grp.create_group(name)] *)
Definition create_group (name : string) (f : h5file) : h5file :=
  {| data_attrs := data_attrs f;
     data_groups := <[name := empty_group]> (data_groups f) |}.

(** Lines 218-224: the attribute and the four datasets of a demo group. *)
Definition fill_group (xml_str : string) (l : loaded) (states : list vec) : group :=
  {| attrs := {[ "model_file" := PyStr xml_str ]};
     datasets :=
       <["subtask_begin_index" := Integers (subtask_begin_index l)]>
       (<["centric_obj_pose" := Vectors (centric_obj_pose l)]>
       (<["actions" := Vectors (actions l)]>
       (<["states" := Vectors states]> ∅))) |}.

Definition put_group (name : string) (g : group) (f : h5file) : h5file :=
  {| data_attrs := data_attrs f;
     data_groups := <[name := g]> (data_groups f) |}.

Definition set_attr (k : string) (v : pyval) (f : h5file) : h5file :=
  {| data_attrs := <[k := v]> (data_attrs f);
     data_groups := data_groups f |}.

(** ** Lines 177-226: the loop over the episode directories *)

Inductive error :=
| AssertionError       (* line 209 *)
| FileNotFoundError    (* line 216 *)
| TypeError.           (* line 233: [env_name] is still [None] *)

(** What the loop carries from one episode to the next. *)
Record progress := {
  file : h5file;
  num_eps : nat;
  last_env : option string       (* the variable [env_name] *)
}.

(** Lines 181-226 for one entry of [os.listdir(directory)]. *)
Definition episode (ep : ep_dir) (p : progress) : progress * option error :=
  let l := load_episode (last_env p) ep in
  let p1 := {| file := file p; num_eps := num_eps p; last_env := env_name l |} in
  if decide (length (states l) = 0%nat) then (p1, None)
  else if success l then
    let states' := removelast (states l) in
    if decide (length states' = length (actions l)) then
      let name := demo_name (num_eps p) in
      let f1 := create_group name (file p) in
      match model_xml ep with
      | None =>
          ({| file := f1; num_eps := S (num_eps p); last_env := env_name l |},
           Some FileNotFoundError)
      | Some xml_str =>
          ({| file := put_group name (fill_group xml_str l states') f1;
              num_eps := S (num_eps p); last_env := env_name l |},
           None)
      end
    else (p1, Some AssertionError)
  else (p1, None).

(** Lines 171-178: the file is opened, nothing is counted or named yet. *)
Definition start (old : option h5file) : progress :=
  {| file := create old; num_eps := 0; last_env := None |}.

(** Line 180: the entries in the order [os.listdir] gives them; an error
    leaves the loop with the file as it then is. *)
Fixpoint episodes (eps : list (string * ep_dir)) (p : progress)
  : progress * option error :=
  match eps with
  | [] => (p, None)
  | (_, ep) :: rest =>
      match episode ep p with
      | (p', None) => episodes rest p'
      | (p', Some e) => (p', Some e)
      end
  end.

(** ** Lines 228-234: the metadata *)

(** [datetime.datetime.now()] *)
Record datetime := {
  month : Z; day : Z; year : Z;
  hour : Z; minute : Z; second : Z
}.

Definition date_attr (now : datetime) : string :=
  pretty (month now) +:+ "-" +:+ pretty (day now) +:+ "-" +:+ pretty (year now).

Definition time_attr (now : datetime) : string :=
  pretty (hour now) +:+ ":" +:+ pretty (minute now) +:+ ":" +:+ pretty (second now).

(** Lines 230-234, one attribute after the other.  When no chunk file was
    loaded [env_name] is still the [None] of line 178, which line 233
    cannot store: it raises with the three attributes before it written. *)
Definition write_metadata (now : datetime) (version : string)
    (env_name : option string) (env_info : string) (f : h5file)
  : h5file * option error :=
  let f3 := set_attr "repository_version" (PyStr version)
              (set_attr "time" (PyStr (time_attr now))
                 (set_attr "date" (PyStr (date_attr now)) f)) in
  match env_name with
  | None => (f3, Some TypeError)
  | Some name =>
      (set_attr "env_info" (PyStr env_info) (set_attr "env" (PyStr name) f3),
       None)
  end.

(** ** [gather_demonstrations_as_hdf5]

    [old] is what is at [out_dir/demo.hdf5] before the call, [directory] the
    listing of the raw directory, [version] is [suite.__version__] and [now]
    the clock when line 229 reads it.  The result is the file as the call
    leaves it and the exception it raised, if any. *)
Definition gather_demonstrations_as_hdf5 (old : option h5file)
    (directory : list (string * ep_dir)) (env_info : string)
    (version : string) (now : datetime) : h5file * option error :=
  match episodes directory (start old) with
  | (p, Some e) => (file p, Some e)
  | (p, None) => write_metadata now version (last_env p) env_info (file p)
  end.

(** The chunk records of a run in the order they are loaded: directory by
    directory as listed, file by file as sorted. *)
Definition all_chunks (directory : list (string * ep_dir)) : list chunk :=
  concat ((λ e, chunks_of e.2) <$> directory).

(** ** Vocabulary of the statements and sample captures *)

(** The file without its [date] and [time] attributes. *)
Definition undated (f : h5file) : h5file :=
  {| data_attrs := delete "date" (delete "time" (data_attrs f));
     data_groups := data_groups f |}.

Definition noon : datetime :=
  {| month := 11; day := 4; year := 2026; hour := 12; minute := 0; second := 0 |}.

(** A chunk of [n + 1] states and the given actions. *)
Definition capture (env : string) (n : nat) (acts : list vec) (ok : bool) : chunk :=
  {| dic_env := env;
     dic_states := replicate (S n) [0%float; 1%float];
     dic_action_infos := Build_action_info <$> acts;
     dic_centric_obj_pose := replicate (S n) [0%float];
     dic_subtask_begin_index := [0];
     dic_successful := ok |}.

Definition zero_action : vec := replicate 7 0%float.

(** One file, two states, one action, the task not done. *)
Definition failed_episode : ep_dir :=
  {| state_files := [("state_1_1.npz", capture "Lift" 1 [zero_action] false)];
     model_xml := Some "<mujoco/>" |}.

(** Two files of different environments, the later one listed first. *)
Definition mixed_episode : ep_dir :=
  {| state_files :=
       [("state_2_0.npz", capture "Stack" 0 [zero_action] true);
        ("state_1_0.npz", capture "Lift" 1 [zero_action] true)];
     model_xml := Some "<mujoco/>" |}.

(** Two states and no action: one state too many after the trim. *)
Definition misaligned_episode : ep_dir :=
  {| state_files := [("state_1_1.npz", capture "Lift" 1 [] true)];
     model_xml := Some "<mujoco/>" |}.

(** One state and no action. *)
Definition single_state_episode : ep_dir :=
  {| state_files := [("state_1_1.npz", capture "Lift" 0 [] true)];
     model_xml := Some "<mujoco/>" |}.

(** One state more than actions, the task done: an episode that is kept. *)
Definition aligned_episode : ep_dir :=
  {| state_files := [("state_1_1.npz", capture "Lift" 1 [zero_action] true)];
     model_xml := Some "<mujoco/>" |}.

(** ** Vocabulary of further statements about the aggregation *)

(** The names [demo_0], ..., [demo_(n-1)]. *)
Definition demo_names (n : nat) : gset string :=
  list_to_set (demo_name <$> seq 0 n).

(** The five attributes of lines 230-234. *)
Definition metadata_keys : gset string :=
  {[ "date"; "time"; "repository_version"; "env"; "env_info" ]}.

(** A demo group as lines 211-224 leave it when none of them raises: the
    model as its one attribute, the four datasets, and as many rows of
    states as of actions. *)
Definition complete_group (g : group) : Prop :=
  ∃ (xml_str : string) (ss acts poses : list vec) (marks : list Z),
    attrs g = {[ "model_file" := PyStr xml_str ]} ∧
    datasets g
    = <["subtask_begin_index" := Integers marks]>
      (<["centric_obj_pose" := Vectors poses]>
      (<["actions" := Vectors acts]>
      (<["states" := Vectors ss]> ∅))) ∧
    length ss = length acts.

(** The order of [sorted]: by path. *)
Definition by_path (f g : string * chunk) : Prop := String.leb f.1 g.1 = true.

(** What an episode's files hold in all, in the order they are loaded. *)
Definition all_states (ep : ep_dir) : list vec :=
  concat (dic_states <$> chunks_of ep).

Definition all_actions (ep : ep_dir) : list vec :=
  concat ((λ c, ai_actions <$> dic_action_infos c) <$> chunks_of ep).

Definition all_poses (ep : ep_dir) : list vec :=
  concat (dic_centric_obj_pose <$> chunks_of ep).

Definition all_marks (ep : ep_dir) : list Z :=
  concat (dic_subtask_begin_index <$> chunks_of ep).

(** An episode of two files, listed in either order. *)
Definition two_files : list (string * chunk) :=
  [("state_1_0.npz", capture "Lift" 1 [zero_action] true);
   ("state_2_0.npz", capture "Lift" 0 [zero_action] true)].

(** One state more than actions, the task done, and no [model.xml]. *)
Definition modelless_episode : ep_dir :=
  {| state_files := [("state_1_1.npz", capture "Lift" 1 [zero_action] true)];
     model_xml := None |}.

(** A chunk file without states, and an entry without chunk files. *)
Definition stateless_episode : ep_dir :=
  {| state_files :=
       [("state_1_1.npz",
         {| dic_env := "Door"; dic_states := []; dic_action_infos := [];
            dic_centric_obj_pose := []; dic_subtask_begin_index := [];
            dic_successful := false |})];
     model_xml := None |}.

Definition stray_entry : ep_dir := {| state_files := []; model_xml := None |}.

(** The groups in the file are [demo_0], ..., [demo_(num_eps - 1)]. *)
Definition numbered (p : progress) : Prop :=
  dom (data_groups (file p)) = demo_names (num_eps p).

(** The three attributes of lines 230-232. *)
Definition clock_and_version (now : datetime) (version : string)
  : gmap string pyval :=
  <["repository_version" := PyStr version]>
  (<["time" := PyStr (time_attr now)]>
  (<["date" := PyStr (date_attr now)]> ∅)).

(** What lines 199-226 raise for an entry; it does not depend on the
    entries before. *)
Definition raises (ep : ep_dir) : option error := (episode ep (start None)).2.

(** The group that lines 211-224 write for an entry when they raise
    nothing; none for an entry without states. *)
Definition written (ep : ep_dir) : option group :=
  if decide (all_states ep = []) then None
  else
    (λ xml_str, fill_group xml_str (load_episode None ep)
                  (removelast (all_states ep))) <$> model_xml ep.

(** The groups of the entries of a listing, in its order. *)
Definition all_written (directory : list (string * ep_dir)) : list group :=
  omap written directory.*2.

(** Three states and two actions, of another environment. *)
Definition stack_episode : ep_dir :=
  {| state_files :=
       [("state_1_1.npz", capture "Stack" 2 [zero_action; zero_action] true)];
     model_xml := Some "<mujoco/>" |}.

(** A raw directory of two episodes, as [os.listdir] may list it. *)
Definition two_episodes : list (string * ep_dir) :=
  [("ep_1", stack_episode); ("ep_2", aligned_episode)].

Definition midnight : datetime :=
  {| month := 11; day := 5; year := 2026; hour := 0; minute := 0; second := 0 |}.

End Gather.

(** * Proof steps that recur *)

Module Tactics.
Import Teleop.

(** Something is not in a list of other things. *)
Ltac absent :=
  let H := fresh in
  intros H;
  repeat (apply elem_of_cons in H as [H|H]; [discriminate H|]);
  by apply elem_of_nil in H.

(** A step, by cases: the thread, the stimulus, the position. *)
Ltac step_cases H :=
  match type of H with
  | step ?c ?s = Some _ =>
      let pc := fresh "pc" in
      let qc := fresh "qc" in
      destruct s as [pc qc ? ? ? ? ? ?];
      first
        [ is_var c; destruct c as [|[|[?|]|?|]];
          [destruct qc | destruct pc ..]
        | lazymatch c with
          | RunStepper => destruct qc
          | RunController ?x => destruct x as [|[?|]|?|]; destruct pc
          end ];
      cbn [step ctl_step stp_step ctl stp lock slot ticks stop_event hold
           args in_try ctl_in_with] in H;
      try discriminate H;
      repeat match type of H with
             | context [match ?x with _ => _ end] => destruct x eqn:?
             end;
      try discriminate H;
      injection H as <- <-
  end.

End Tactics.

(** * The controller's loop: deadzone and latch *)

Module LoopFacts.
Import Teleop.
Import Tactics.

(** ** Float comparisons against a non-negative threshold *)

Lemma between_is_abs_below (d x : spec_float) :
  threshold_like d →
  SFltb (SFopp d) x && SFltb x d = SFltb (SFabs x) d.
Proof.
  destruct d as [[]| | |[] md ed]; simpl; try tauto; intros _;
    destruct x as [[]|[]| |[] m e]; try reflexivity.
  unfold SFltb; simpl.
  rewrite (Z.compare_antisym e ed).
  destruct (e ?= ed); simpl; try reflexivity.
  rewrite Pos.compare_cont_antisym; simpl.
  apply andb_true_r.
Qed.

Lemma is_dead_abs (d x : float) :
  threshold_like (Prim2SF d) →
  is_dead d x = PrimFloat.ltb (PrimFloat.abs x) d.
Proof.
  intros Hd. unfold is_dead.
  rewrite !ltb_spec, opp_spec, abs_spec.
  by apply between_is_abs_below.
Qed.

Lemma deadzone_thresholds (i : nat) (d : float) :
  deadzone !! i = Some d → threshold_like (Prim2SF d).
Proof.
  do 6 (destruct i as [|i]; [intros [= <-]; vm_compute; exact I|]).
  discriminate.
Qed.

(** ** The clamp *)

Lemma clamp_deadzone_defined (a : action) :
  (6 ≤ length a)%nat →
  clamp_deadzone a = Some (zip_with zero_dead deadzone (take 6 a) ++ drop 6 a).
Proof.
  intros Hlen. unfold clamp_deadzone.
  rewrite length_take, Nat.min_l by done.
  by rewrite decide_True.
Qed.

Lemma clamp_deadzone_None (a : action) :
  (length a < 6)%nat → clamp_deadzone a = None.
Proof.
  intros Hlen. unfold clamp_deadzone.
  rewrite length_take, decide_False; [done|].
  change (length deadzone) with 6%nat. lia.
Qed.

Lemma clamp_deadzone_length (a a' : action) :
  clamp_deadzone a = Some a' → length a' = length a ∧ (6 ≤ length a)%nat.
Proof.
  unfold clamp_deadzone. case_decide as Hl; [|done]. intros Heq.
  assert (a' = zip_with zero_dead deadzone (take 6 a) ++ drop 6 a) as ->
    by congruence.
  clear Heq. rewrite length_take in Hl. change (length deadzone) with 6%nat in Hl.
  rewrite length_app, length_zip_with, length_take, length_drop.
  change (length deadzone) with 6%nat. lia.
Qed.

Lemma clamp_deadzone_first_six (a a' : action) (i : nat) (d x : float) :
  clamp_deadzone a = Some a' →
  deadzone !! i = Some d → a !! i = Some x →
  a' !! i = Some (if PrimFloat.ltb (PrimFloat.abs x) d then 0%float else x).
Proof.
  intros Hc Hd Hx.
  destruct (clamp_deadzone_length _ _ Hc) as [_ Hlen].
  rewrite clamp_deadzone_defined in Hc by done.
  assert (a' = zip_with zero_dead deadzone (take 6 a) ++ drop 6 a) as ->
    by congruence.
  clear Hc.
  assert (i < 6)%nat as Hi by (apply lookup_lt_Some in Hd; exact Hd).
  rewrite lookup_app_l
    by (rewrite length_zip_with, length_take; change (length deadzone) with 6%nat; lia).
  rewrite lookup_zip_with, Hd, lookup_take_lt, Hx by done. simpl.
  unfold zero_dead. by rewrite (is_dead_abs d x (deadzone_thresholds i d Hd)).
Qed.

Lemma clamp_deadzone_rest (a a' : action) (i : nat) :
  clamp_deadzone a = Some a' → (6 ≤ i)%nat → a' !! i = a !! i.
Proof.
  intros Hc Hi.
  destruct (clamp_deadzone_length _ _ Hc) as [_ Hlen].
  rewrite clamp_deadzone_defined in Hc by done.
  assert (a' = zip_with zero_dead deadzone (take 6 a) ++ drop 6 a) as ->
    by congruence.
  clear Hc.
  assert (length (zip_with zero_dead deadzone (take 6 a)) = 6%nat) as Hz
    by (rewrite length_zip_with, length_take; change (length deadzone) with 6%nat; lia).
  rewrite lookup_app_r by lia. rewrite Hz, lookup_drop. f_equal. lia.
Qed.

(** ** One iteration of the loop *)

Lemma collect_loop_usable
    (cl : call) (hold : Z) (t : tick) (rest : list tick) :
  is_Some (robot_of cl) →
  usable t →
  ∃ a a', device t = Some a ∧ clamp_deadzone a = Some a' ∧
    collect_loop cl hold (t :: rest) =
      push a' (if hold =? 0 then stop Completed
               else held (latch hold (check_success t))
                      (if max_steps <=? timestamps t then stop TimedOut
                       else collect_loop cl (latch hold (check_success t))
                              rest)).
Proof.
  unfold usable. intros [r Hr] [a' Ha'].
  destruct (device t) as [a|] eqn:Hdev; [|done]. simpl in Ha'.
  exists a, a'. split; [done|]. split; [done|].
  simpl. by rewrite Hr, Hdev, Ha'.
Qed.

(** A passing tick met with the latch not at 0: the action is pushed, the
    latch moves, the loop goes on. *)
Lemma collect_loop_passing
    (cl : call) (hold : Z) (t : tick) (rest : list tick) :
  is_Some (robot_of cl) →
  passing t → hold ≠ 0 →
  let r := collect_loop cl hold (t :: rest) in
  let r' := collect_loop cl (latch hold true) rest in
  holds r = latch hold true :: holds r' ∧
  ended r = ended r' ∧
  length (pushed r) = S (length (pushed r')).
Proof.
  intros Hr (Hu & Hs & Hb) Hh.
  destruct (collect_loop_usable cl hold t rest Hr Hu) as (a & a' & _ & _ & ->).
  rewrite Hs.
  destruct (Z.eqb_spec hold 0) as [|_]; [done|].
  destruct (Z.leb_spec max_steps (timestamps t)) as [|_]; [lia|].
  by cbn [holds ended pushed push held].
Qed.

(** A usable tick met with the latch at 0 ends the loop, its action pushed,
    [_check_success] not asked. *)
Lemma collect_loop_at_zero (cl : call) (t : tick) (rest : list tick) :
  is_Some (robot_of cl) →
  usable t →
  let r := collect_loop cl 0 (t :: rest) in
  holds r = [] ∧ ended r = Some Completed ∧ length (pushed r) = 1%nat.
Proof.
  intros Hr Hu.
  by destruct (collect_loop_usable cl 0 t rest Hr Hu) as (a & a' & _ & _ & ->).
Qed.

(** A usable tick on which the task is not done, within the budget. *)
Lemma collect_loop_failing
    (cl : call) (hold : Z) (t : tick) (rest : list tick) :
  is_Some (robot_of cl) →
  usable t → check_success t = false → timestamps t < max_steps → hold ≠ 0 →
  let r := collect_loop cl hold (t :: rest) in
  let r' := collect_loop cl (-1) rest in
  holds r = -1 :: holds r' ∧ ended r = ended r'.
Proof.
  intros Hr Hu Hs Hb Hh.
  destruct (collect_loop_usable cl hold t rest Hr Hu) as (a & a' & _ & _ & ->).
  rewrite Hs.
  destruct (Z.eqb_spec hold 0) as [|_]; [done|].
  destruct (Z.leb_spec max_steps (timestamps t)) as [|_]; [lia|].
  by cbn [holds ended pushed push held].
Qed.

(** Passing ticks are all evaluated as long as the latch stays off 0. *)
Lemma collect_loop_passes (cl : call) (ts rest : list tick) (hold : Z) :
  is_Some (robot_of cl) →
  Forall passing ts →
  hold ≠ 0 →
  0 ∉ removelast (latch_run hold (length ts)) →
  let r := collect_loop cl hold (ts ++ rest) in
  let r' := collect_loop cl (latch_after hold (length ts)) rest in
  holds r = latch_run hold (length ts) ++ holds r' ∧
  ended r = ended r' ∧
  length (pushed r) = (length ts + length (pushed r'))%nat.
Proof.
  intros Hr Hts. revert hold.
  induction Hts as [|t ts Ht Hts IH]; intros hold Hh Hz; [done|].
  cbn [app length latch_run latch_after] in *.
  destruct (collect_loop_passing cl hold t (ts ++ rest) Hr Ht Hh)
    as (-> & -> & ->).
  destruct ts as [|t' ts'].
  - simpl. repeat split.
  - cbn [length latch_run removelast] in Hz.
    apply not_elem_of_cons in Hz as [Hne Hz].
    destruct (IH (latch hold true)) as (-> & -> & ->); [done|exact Hz|].
    repeat split.
Qed.

(** ** The deadzone is applied before the action is pushed *)

(** C9. Whenever [input2action] hands the loop an action (of at least the six
    components the clamp reads; line 96 has found its robot, or
    [input2action] would not have been called), what the loop passes to
    [set_action] is that action with every one of its first six components
    whose absolute value is below the component's entry of [deadzone] set
    to 0, and every other component as it was. *)
Theorem deadzone_applied_before_push
    (cl : call) (hold : Z) (t : tick) (rest : list tick) (a : action) :
  is_Some (robot_of cl) →
  device t = Some a →
  (6 ≤ length a)%nat →
  ∃ a' : action,
    clamp_deadzone a = Some a' ∧
    head (pushed (collect_loop cl hold (t :: rest))) = Some a' ∧
    length a' = length a ∧
    (∀ (i : nat) (d x : float),
        deadzone !! i = Some d → a !! i = Some x →
        a' !! i = Some (if PrimFloat.ltb (PrimFloat.abs x) d then 0%float else x)) ∧
    (∀ i : nat, (6 ≤ i)%nat → a' !! i = a !! i).
Proof.
  intros [r Hr] Hdev Hlen.
  pose proof (clamp_deadzone_defined a Hlen) as Hc.
  eexists. split; [exact Hc|]. split; [|split; [|split]].
  - simpl. by rewrite Hr, Hdev, Hc.
  - by apply clamp_deadzone_length in Hc as [? _].
  - intros i d x. by apply clamp_deadzone_first_six.
  - intros i. by apply clamp_deadzone_rest.
Qed.

Lemma deadzone_applied_before_push_witness :
  ∃ a' : action,
    clamp_deadzone sample_action = Some a' ∧
    head (pushed (collect_loop solo hold_init
      [{| device := Some sample_action; check_success := false;
          timestamps := 0 |}])) = Some a' ∧
    length a' = length sample_action ∧
    (∀ (i : nat) (d x : float),
        deadzone !! i = Some d → sample_action !! i = Some x →
        a' !! i = Some (if PrimFloat.ltb (PrimFloat.abs x) d then 0%float else x)) ∧
    (∀ i : nat, (6 ≤ i)%nat → a' !! i = sample_action !! i).
Proof.
  apply (deadzone_applied_before_push solo hold_init
           {| device := Some sample_action; check_success := false;
              timestamps := 0 |} [] sample_action).
  - by eexists.
  - reflexivity.
  - simpl. lia.
Defined.

Example clamp_sample :
  clamp_deadzone sample_action
  = Some [0x1p-5%float; (-0x1p-5)%float; 0%float;
          0%float; (-0x1p-2)%float; tenth; 1%float].
Proof. vm_compute. reflexivity. Qed.

(** ** The latch needs eleven passing ticks *)

(** C2, refuted as stated: with the task reported done on ticks 1 to 10 and
    not on tick 11, the latch takes the values 10, 9, ..., 1 on the ten
    passing ticks and -1 on tick 11; it never is 0, tick 11 is evaluated,
    and the loop has not ended. *)
Lemma ten_passes_do_not_complete :
  let r := collect_loop solo hold_init
             (replicate 10 (still true) ++ [still false]) in
  holds r = [10; 9; 8; 7; 6; 5; 4; 3; 2; 1; -1] ∧
  (0 ∉ holds r) ∧
  ended r = None ∧
  ¬ (take 10 (holds r) = [10; 9; 8; 7; 6; 5; 4; 3; 2; 1; 0]
     ∧ ended r = Some Completed).
Proof.
  intros r.
  assert (holds r = [10; 9; 8; 7; 6; 5; 4; 3; 2; 1; -1]) as Hh
    by (vm_compute; reflexivity).
  assert (ended r = None) as He by (vm_compute; reflexivity).
  rewrite Hh, He. split; [reflexivity|]. split; [|split; [reflexivity|]].
  - absent.
  - intros [H _]. discriminate H.
Qed.

(** C2, as the code has it: with the task reported done on eleven ticks in a
    row (from the start, each with a usable action and within the budget,
    in a call whose line 96 finds its robot, as it must for a tick to be
    evaluated) the latch takes the values 10, 9, ..., 0, one per tick; the
    loop then ends as completed on the twelfth iteration, after pushing
    that iteration's action and without asking [_check_success] again.
    With ten such ticks and then one on which the task is not done, the
    latch takes the values 10, 9, ..., 1 and then -1, and the loop goes
    on. *)
Theorem eleven_passes_complete
    (cl : call) (ts : list tick) (t : tick) (rest : list tick) :
  is_Some (robot_of cl) →
  Forall passing ts →
  usable t →
  (length ts = 11%nat →
     let r := collect_loop cl hold_init (ts ++ t :: rest) in
     holds r = [10; 9; 8; 7; 6; 5; 4; 3; 2; 1; 0] ∧
     ended r = Some Completed ∧
     length (pushed r) = 12%nat) ∧
  (length ts = 10%nat → check_success t = false → timestamps t < max_steps →
     let r := collect_loop cl hold_init (ts ++ t :: rest) in
     let r' := collect_loop cl (-1) rest in
     holds r = [10; 9; 8; 7; 6; 5; 4; 3; 2; 1; -1] ++ holds r' ∧
     ended r = ended r').
Proof.
  intros Hr Hts Ht. split.
  - intros Hlen. cbv zeta.
    destruct (collect_loop_passes cl ts (t :: rest) hold_init Hr Hts)
      as (-> & -> & ->).
    + done.
    + rewrite Hlen.
      change (removelast (latch_run hold_init 11))
        with [10; 9; 8; 7; 6; 5; 4; 3; 2; 1].
      absent.
    + rewrite Hlen.
      change (latch_after hold_init 11) with 0.
      change (latch_run hold_init 11) with [10; 9; 8; 7; 6; 5; 4; 3; 2; 1; 0].
      destruct (collect_loop_at_zero cl t rest Hr Ht) as (-> & -> & ->).
      done.
  - intros Hlen Hs Hb. cbv zeta.
    destruct (collect_loop_passes cl ts (t :: rest) hold_init Hr Hts)
      as (-> & -> & _).
    + done.
    + rewrite Hlen.
      change (removelast (latch_run hold_init 10))
        with [10; 9; 8; 7; 6; 5; 4; 3; 2].
      absent.
    + rewrite Hlen.
      change (latch_after hold_init 10) with 1.
      change (latch_run hold_init 10) with [10; 9; 8; 7; 6; 5; 4; 3; 2; 1].
      destruct (collect_loop_failing cl 1 t rest Hr Ht Hs Hb) as (-> & ->);
        [done|].
      split; reflexivity.
Qed.

Lemma usable_still (b : bool) : usable (still b).
Proof. unfold usable. eexists. vm_compute. reflexivity. Qed.

Lemma passing_still : passing (still true).
Proof. split; [apply usable_still|]. split; [reflexivity|]. reflexivity. Qed.

Lemma eleven_passes_complete_witness :
  (let r := collect_loop solo hold_init
              (replicate 11 (still true) ++ [still true]) in
   holds r = [10; 9; 8; 7; 6; 5; 4; 3; 2; 1; 0] ∧
   ended r = Some Completed ∧
   length (pushed r) = 12%nat) ∧
  (let r := collect_loop solo hold_init
              (replicate 10 (still true) ++ [still false]) in
   holds r = [10; 9; 8; 7; 6; 5; 4; 3; 2; 1; -1] ∧
   ended r = None).
Proof.
  split.
  - apply (eleven_passes_complete solo (replicate 11 (still true))
             (still true) []).
    + by eexists.
    + repeat constructor; apply passing_still.
    + apply usable_still.
    + reflexivity.
  - apply (eleven_passes_complete solo (replicate 10 (still true))
             (still false) []).
    + by eexists.
    + repeat constructor; apply passing_still.
    + apply usable_still.
    + reflexivity.
    + reflexivity.
    + reflexivity.
Defined.

End LoopFacts.

(** * The aggregation *)

Module GatherFacts.
Import Gather.
Import Tactics.

(** ** Loading the chunk files of an episode *)

Lemma load_fold_success (cs : list chunk) (acc : loaded) :
  success acc = true → success (foldl load_chunk acc cs) = true.
Proof.
  revert acc. induction cs as [|c cs IH]; intros acc Hacc; [done|].
  simpl. apply IH. simpl. by rewrite Hacc.
Qed.

(** The flag that line 203 tests is [True] whatever the files say. *)
Lemma load_episode_success (e : option string) (ep : ep_dir) :
  success (load_episode e ep) = true.
Proof. by apply load_fold_success. Qed.

Lemma load_fold_env (cs : list chunk) (acc : loaded) :
  env_name (foldl load_chunk acc cs)
  = match last cs with
    | Some c => Some (dic_env c)
    | None => env_name acc
    end.
Proof.
  revert acc. induction cs as [|c cs IH]; intros acc; [done|].
  simpl. rewrite IH, last_cons. by destruct (last cs).
Qed.

Lemma load_episode_env (e : option string) (ep : ep_dir) :
  env_name (load_episode e ep)
  = match last (chunks_of ep) with
    | Some c => Some (dic_env c)
    | None => e
    end.
Proof. apply load_fold_env. Qed.

Lemma load_fold_states (cs : list chunk) (acc : loaded) :
  states (foldl load_chunk acc cs) = states acc ++ concat (dic_states <$> cs).
Proof.
  revert acc. induction cs as [|c cs IH]; intros acc; simpl.
  - by rewrite app_nil_r.
  - rewrite IH. cbn [states load_chunk]. by rewrite <- app_assoc.
Qed.

Lemma load_fold_actions (cs : list chunk) (acc : loaded) :
  actions (foldl load_chunk acc cs)
  = actions acc ++ concat ((λ c, ai_actions <$> dic_action_infos c) <$> cs).
Proof.
  revert acc. induction cs as [|c cs IH]; intros acc; simpl.
  - by rewrite app_nil_r.
  - rewrite IH. cbn [actions load_chunk]. by rewrite <- app_assoc.
Qed.

(** ** One episode *)

Lemma episode_last_env (ep : ep_dir) (p : progress) :
  last_env (episode ep p).1 = env_name (load_episode (last_env p) ep).
Proof.
  unfold episode. repeat case_match; reflexivity.
Qed.

Lemma episode_attrs (ep : ep_dir) (p : progress) :
  data_attrs (file (episode ep p).1) = data_attrs (file p).
Proof.
  unfold episode. repeat case_match; reflexivity.
Qed.

(** ** The loop *)

Lemma episodes_attrs (eps : list (string * ep_dir)) (p : progress) :
  data_attrs (file (episodes eps p).1) = data_attrs (file p).
Proof.
  revert p. induction eps as [|[n ep] eps IH]; intros p; [done|].
  simpl. pose proof (episode_attrs ep p) as Hep.
  destruct (episode ep p) as [p' [e|]]; simpl in *; [done|].
  by rewrite IH.
Qed.

Lemma all_chunks_cons (n : string) (ep : ep_dir) (eps : list (string * ep_dir)) :
  all_chunks ((n, ep) :: eps) = chunks_of ep ++ all_chunks eps.
Proof. reflexivity. Qed.

Lemma episodes_last_env (eps : list (string * ep_dir)) (p p' : progress) :
  episodes eps p = (p', None) →
  last_env p'
  = match last (all_chunks eps) with
    | Some c => Some (dic_env c)
    | None => last_env p
    end.
Proof.
  revert p. induction eps as [|[n ep] eps IH]; intros p; simpl.
  - by intros [= ->].
  - pose proof (episode_last_env ep p) as Hep.
    destruct (episode ep p) as [p1 [e|]]; [done|]. simpl in Hep.
    intros ->%IH. rewrite Hep, load_episode_env, all_chunks_cons, last_app.
    by destruct (last (all_chunks eps)).
Qed.

Lemma episodes_app (pre post : list (string * ep_dir)) (p p' : progress) :
  episodes pre p = (p', None) →
  episodes (pre ++ post) p = episodes post p'.
Proof.
  revert p. induction pre as [|[n ep] pre IH]; intros p; simpl.
  - by intros [= ->].
  - destruct (episode ep p) as [p1 [e|]]; [done|]. apply IH.
Qed.

(** A run that raises stops at one entry of the listing, with the entries
    before it done. *)
Lemma episodes_error (eps : list (string * ep_dir)) (p q : progress) (e : error) :
  episodes eps p = (q, Some e) →
  ∃ pre n ep post p',
    eps = pre ++ (n, ep) :: post ∧
    episodes pre p = (p', None) ∧
    episode ep p' = (q, Some e).
Proof.
  revert p. induction eps as [|[n ep] eps IH]; intros p; simpl; [done|].
  destruct (episode ep p) as [p1 [e1|]] eqn:Hep.
  - intros [= -> ->]. by exists [], n, ep, eps, p.
  - intros (pre & n' & ep' & post & p' & -> & Hpre & Hbad)%IH.
    exists ((n, ep) :: pre), n', ep', post, p'.
    split; [done|]. split; [|done]. simpl. by rewrite Hep.
Qed.

(** ** The metadata *)

Lemma write_metadata_groups (now : datetime) (version : string)
    (e : option string) (env_info : string) (f : h5file) :
  data_groups (write_metadata now version e env_info f).1 = data_groups f.
Proof. unfold write_metadata. by destruct e. Qed.

(** Line 233 is the one line after the loop that can raise. *)
Lemma write_metadata_error (now : datetime) (version : string)
    (e : option string) (env_info : string) (f : h5file) :
  (write_metadata now version e env_info f).2
  = if e is None then Some TypeError else None.
Proof. unfold write_metadata. by destruct e. Qed.

(** The groups are those the loop has written. *)
Lemma gather_groups (old : option h5file) (directory : list (string * ep_dir))
    (env_info version : string) (now : datetime) :
  data_groups (gather_demonstrations_as_hdf5 old directory env_info version now).1
  = data_groups (file (episodes directory (start old)).1).
Proof.
  unfold gather_demonstrations_as_hdf5.
  destruct (episodes directory (start old)) as [p [e|]]; [done|].
  apply write_metadata_groups.
Qed.

(** ** Sample captures *)

Example mixed_episode_sorted :
  dic_env <$> chunks_of mixed_episode = ["Lift"; "Stack"].
Proof. reflexivity. Qed.

(** ** The success filter *)

(** C1, on the code: an episode whose only chunk has [successful = False]
    gets the derived flag [True] (line 186 starts the disjunction from
    [True]) and is written as [demo_0]. *)
Theorem failed_episode_is_saved :
  existsb dic_successful (chunks_of failed_episode) = false ∧
  success (load_episode None failed_episode) = true ∧
  (gather_demonstrations_as_hdf5 None [("ep_1", failed_episode)]
     "{}" "1.4.0" noon).2 = None ∧
  is_Some (data_groups
    (gather_demonstrations_as_hdf5 None [("ep_1", failed_episode)]
       "{}" "1.4.0" noon).1 !! "demo_0").
Proof.
  split; [reflexivity|]. split; [reflexivity|]. split; [reflexivity|].
  eexists. vm_compute. reflexivity.
Qed.

(** ** The environment name *)

(** C3, refuted as stated: with the files of two environments in one
    episode, the first chunk loaded is of ["Lift"] and the [env] attribute
    is ["Stack"]. *)
Lemma env_attr_is_not_first_chunk :
  let directory := [("ep_1", mixed_episode)] in
  let out := gather_demonstrations_as_hdf5 None directory "{}" "1.4.0" noon in
  dic_env <$> head (all_chunks directory) = Some "Lift" ∧
  data_attrs out.1 !! "env" = Some (PyStr "Stack") ∧
  data_attrs out.1 !! "env" ≠ PyStr <$> (dic_env <$> head (all_chunks directory)).
Proof.
  intros directory out.
  assert (data_attrs out.1 !! "env" = Some (PyStr "Stack")) as Henv
    by (vm_compute; reflexivity).
  rewrite Henv. split; [reflexivity|]. split; [reflexivity|].
  intros H. discriminate H.
Qed.

(** C3, as the code has it: when the run completes, a chunk record was
    loaded, and the [env] attribute is the environment name of the last one
    loaded (the last file, in sorted order, of the last listed directory
    that has one). *)
Theorem env_attr_is_last_chunk
    (old : option h5file) (directory : list (string * ep_dir))
    (env_info version : string) (now : datetime) (f : h5file) :
  gather_demonstrations_as_hdf5 old directory env_info version now = (f, None) →
  ∃ c : chunk,
    last (all_chunks directory) = Some c ∧
    data_attrs f !! "env" = Some (PyStr (dic_env c)).
Proof.
  unfold gather_demonstrations_as_hdf5.
  destruct (episodes directory (start old)) as [p [e|]] eqn:Hrun; [done|].
  apply episodes_last_env in Hrun. rewrite Hrun. simpl.
  destruct (last (all_chunks directory)) as [c|]; [|done].
  unfold write_metadata, set_attr. simpl. intros [= <-]. simpl.
  exists c. split; [done|].
  rewrite lookup_insert_ne by done. by rewrite lookup_insert_eq.
Qed.

Lemma env_attr_is_last_chunk_witness :
  ∃ c : chunk,
    last (all_chunks [("ep_1", mixed_episode)]) = Some c ∧
    data_attrs
      (gather_demonstrations_as_hdf5 None [("ep_1", mixed_episode)]
         "{}" "1.4.0" noon).1 !! "env"
    = Some (PyStr (dic_env c)).
Proof.
  apply (env_attr_is_last_chunk None [("ep_1", mixed_episode)]
           "{}" "1.4.0" noon).
  reflexivity.
Defined.

(** ** The trim and the assertion *)

Lemma removelast_snoc (l : list vec) :
  l ≠ [] → ∃ dropped, l = removelast l ++ [dropped].
Proof.
  intros Hl. exists (List.last l []). by apply app_removelast_last.
Qed.

Lemma removelast_length (l : list vec) :
  l ≠ [] → length l = S (length (removelast l)).
Proof.
  intros [d Hd]%removelast_snoc. rewrite Hd at 1.
  rewrite length_app. simpl. lia.
Qed.

(** The branches of [episode] for an episode that has states. *)
Lemma episode_retained (ep : ep_dir) (p : progress) :
  let l := load_episode (last_env p) ep in
  let name := demo_name (num_eps p) in
  states l ≠ [] →
  episode ep p
  = if decide (length (removelast (states l)) = length (actions l)) then
      match model_xml ep with
      | None =>
          ({| file := create_group name (file p); num_eps := S (num_eps p);
              last_env := env_name l |}, Some FileNotFoundError)
      | Some xml_str =>
          ({| file := put_group name
                        (fill_group xml_str l (removelast (states l)))
                        (create_group name (file p));
              num_eps := S (num_eps p); last_env := env_name l |}, None)
      end
    else
      ({| file := file p; num_eps := num_eps p; last_env := env_name l |},
       Some AssertionError).
Proof.
  intros l name Hne. unfold episode. fold l. fold name.
  rewrite decide_False by (by destruct (states l)).
  unfold l at 1. by rewrite load_episode_success.
Qed.

(** C6. For an episode that has states (its derived flag is [True], as
    every episode's is), reached by a run with the entries before it done:
    what is kept of the states is all but the last one; when there is
    exactly one state more than actions, the kept states are as many as the
    actions, line 209 passes and the group is created (and, the model file
    being there, filled with the kept states and the actions); with any
    other relation of the two lengths line 209 raises, and the run ends
    with that [AssertionError]. *)
Theorem trim_then_assert
    (old : option h5file) (pre : list (string * ep_dir)) (name : string)
    (ep : ep_dir) (post : list (string * ep_dir))
    (env_info version : string) (now : datetime) (p : progress) :
  episodes pre (start old) = (p, None) →
  let l := load_episode (last_env p) ep in
  states l ≠ [] →
  ∃ (kept : list vec) (dropped : vec),
    states l = kept ++ [dropped] ∧
    (length (states l) = S (length (actions l)) →
       length kept = length (actions l) ∧
       (episode ep p).2 ≠ Some AssertionError ∧
       ∃ g : group,
         data_groups (file (episode ep p).1) !! demo_name (num_eps p) = Some g ∧
         ∀ xml_str : string, model_xml ep = Some xml_str →
           (episode ep p).2 = None ∧
           datasets g !! "states" = Some (Vectors kept) ∧
           datasets g !! "actions" = Some (Vectors (actions l))) ∧
    (length (states l) ≠ S (length (actions l)) →
       episode ep p
       = ({| file := file p; num_eps := num_eps p; last_env := env_name l |},
          Some AssertionError) ∧
       gather_demonstrations_as_hdf5 old (pre ++ (name, ep) :: post)
         env_info version now
       = (file p, Some AssertionError)).
Proof.
  intros Hpre l Hne.
  destruct (removelast_snoc (states l) Hne) as [dropped Hsplit].
  pose proof (removelast_length (states l) Hne) as Hlen.
  pose proof (episode_retained ep p Hne) as Hep. fold l in Hep.
  exists (removelast (states l)), dropped. split; [exact Hsplit|]. split.
  - intros Hone.
    assert (length (removelast (states l)) = length (actions l)) as Heq by lia.
    rewrite decide_True in Hep by done.
    split; [exact Heq|].
    destruct (model_xml ep) as [xml_str|]; rewrite Hep; simpl.
    + split; [done|]. eexists. split; [apply lookup_insert_eq|].
      intros ? [= <-]. split; [done|]. split; reflexivity.
    + split; [done|]. eexists. split; [apply lookup_insert_eq|]. done.
  - intros Hother.
    assert (length (removelast (states l)) ≠ length (actions l)) as Hneq by lia.
    rewrite decide_False in Hep by done.
    split; [exact Hep|].
    unfold gather_demonstrations_as_hdf5.
    rewrite (episodes_app pre _ _ _ Hpre). simpl. by rewrite Hep.
Qed.

Lemma trim_then_assert_witness :
  ∃ (kept : list vec) (dropped : vec),
    states (load_episode None misaligned_episode) = kept ++ [dropped] ∧
    (length (states (load_episode None misaligned_episode))
     = S (length (actions (load_episode None misaligned_episode))) →
       length kept = length (actions (load_episode None misaligned_episode)) ∧
       (episode misaligned_episode (start None)).2 ≠ Some AssertionError ∧
       ∃ g : group,
         data_groups (file (episode misaligned_episode (start None)).1)
           !! demo_name 0 = Some g ∧
         ∀ xml_str : string, model_xml misaligned_episode = Some xml_str →
           (episode misaligned_episode (start None)).2 = None ∧
           datasets g !! "states" = Some (Vectors kept) ∧
           datasets g !! "actions"
           = Some (Vectors (actions (load_episode None misaligned_episode)))) ∧
    (length (states (load_episode None misaligned_episode))
     ≠ S (length (actions (load_episode None misaligned_episode))) →
       episode misaligned_episode (start None)
       = ({| file := file (start None); num_eps := 0;
             last_env := env_name (load_episode None misaligned_episode) |},
          Some AssertionError) ∧
       gather_demonstrations_as_hdf5 None
         ([] ++ ("ep_1", misaligned_episode) :: [("ep_2", failed_episode)])
         "{}" "1.4.0" noon
       = (file (start None), Some AssertionError)).
Proof.
  apply (trim_then_assert None [] "ep_1" misaligned_episode
           [("ep_2", failed_episode)] "{}" "1.4.0" noon (start None)).
  - reflexivity.
  - discriminate.
Defined.

(** ** A run that raises *)

(** C7, refuted as stated: a run over a kept episode and then a misaligned
    one raises at line 209 and leaves the file with the group [demo_0] of
    the first episode in it. *)
Lemma abort_keeps_earlier_groups :
  let out := gather_demonstrations_as_hdf5 None
               [("ep_1", aligned_episode); ("ep_2", misaligned_episode)]
               "{}" "1.4.0" noon in
  out.2 = Some AssertionError ∧
  is_Some (data_groups out.1 !! "demo_0") ∧
  data_groups out.1 ≠ ∅.
Proof.
  intros out.
  assert (is_Some (data_groups out.1 !! "demo_0")) as Hg
    by (eexists; vm_compute; reflexivity).
  split; [reflexivity|]. split; [exact Hg|].
  intros Hempty. rewrite Hempty, lookup_empty in Hg. by destruct Hg.
Qed.

(** C7, as the code has it: a run that raises at line 209 does so at one
    entry of the listing; the file it leaves was created anew, has no
    top-level attribute, and holds exactly the groups that the entries
    before the failing one got, which are the groups a run over those
    entries alone writes. *)
Theorem abort_leaves_partial_file
    (old : option h5file) (directory : list (string * ep_dir))
    (env_info version : string) (now : datetime) (f : h5file) :
  gather_demonstrations_as_hdf5 old directory env_info version now
  = (f, Some AssertionError) →
  data_attrs f = ∅ ∧
  ∃ (pre : list (string * ep_dir)) (name : string) (ep : ep_dir)
    (post : list (string * ep_dir)) (p : progress),
    directory = pre ++ (name, ep) :: post ∧
    episodes pre (start old) = (p, None) ∧
    (episode ep p).2 = Some AssertionError ∧
    f = file p ∧
    data_groups f
    = data_groups
        (gather_demonstrations_as_hdf5 old pre env_info version now).1.
Proof.
  unfold gather_demonstrations_as_hdf5.
  destruct (episodes directory (start old)) as [q [e|]] eqn:Hrun.
  2: { intros Hw.
       pose proof (write_metadata_error now version (last_env q) env_info
                     (file q)) as He.
       rewrite Hw in He. simpl in He. by destruct (last_env q). }
  intros [= <- ->]. split.
  - pose proof (episodes_attrs directory (start old)) as Ha.
    by rewrite Hrun in Ha.
  - destruct (episodes_error _ _ _ _ Hrun)
      as (pre & name & ep & post & p & -> & Hpre & Hbad).
    exists pre, name, ep, post, p.
    split; [done|]. split; [done|]. split; [by rewrite Hbad|].
    assert (file q = file p) as Hfile.
    { unfold episode in Hbad. repeat case_match; by simplify_eq. }
    split; [exact Hfile|].
    by rewrite Hpre, write_metadata_groups, Hfile.
Qed.

Lemma abort_leaves_partial_file_witness :
  data_attrs
    (gather_demonstrations_as_hdf5 None
       [("ep_1", aligned_episode); ("ep_2", misaligned_episode)]
       "{}" "1.4.0" noon).1 = ∅ ∧
  ∃ (pre : list (string * ep_dir)) (name : string) (ep : ep_dir)
    (post : list (string * ep_dir)) (p : progress),
    [("ep_1", aligned_episode); ("ep_2", misaligned_episode)]
    = pre ++ (name, ep) :: post ∧
    episodes pre (start None) = (p, None) ∧
    (episode ep p).2 = Some AssertionError ∧
    (gather_demonstrations_as_hdf5 None
       [("ep_1", aligned_episode); ("ep_2", misaligned_episode)]
       "{}" "1.4.0" noon).1 = file p ∧
    data_groups
      (gather_demonstrations_as_hdf5 None
         [("ep_1", aligned_episode); ("ep_2", misaligned_episode)]
         "{}" "1.4.0" noon).1
    = data_groups
        (gather_demonstrations_as_hdf5 None pre "{}" "1.4.0" noon).1.
Proof.
  apply (abort_leaves_partial_file None
           [("ep_1", aligned_episode); ("ep_2", misaligned_episode)]
           "{}" "1.4.0" noon).
  reflexivity.
Defined.

(** ** An episode of one state *)

(** C10. An episode whose files hold one state and no action in all, with
    its model file there, is not skipped: the trim leaves no state, line
    209 passes, and the group [demo_N] is written with empty [states] and
    [actions] datasets. *)
Theorem single_state_episode_is_written
    (ep : ep_dir) (p : progress) (s : vec) (xml_str : string) :
  states (load_episode (last_env p) ep) = [s] →
  actions (load_episode (last_env p) ep) = [] →
  model_xml ep = Some xml_str →
  ∃ g : group,
    (episode ep p).2 = None ∧
    num_eps (episode ep p).1 = S (num_eps p) ∧
    data_groups (file (episode ep p).1) !! demo_name (num_eps p) = Some g ∧
    attrs g !! "model_file" = Some (PyStr xml_str) ∧
    datasets g !! "states" = Some (Vectors []) ∧
    datasets g !! "actions" = Some (Vectors []).
Proof.
  intros Hs Ha Hxml.
  assert (states (load_episode (last_env p) ep) ≠ []) as Hne by by rewrite Hs.
  rewrite (episode_retained ep p Hne), Hs, Ha, Hxml. simpl.
  eexists. split; [done|]. split; [done|].
  split; [apply lookup_insert_eq|].
  unfold fill_group. rewrite Ha. repeat split; reflexivity.
Qed.

Lemma single_state_episode_is_written_witness :
  ∃ g : group,
    (episode single_state_episode (start None)).2 = None ∧
    num_eps (episode single_state_episode (start None)).1 = 1%nat ∧
    data_groups (file (episode single_state_episode (start None)).1)
      !! demo_name 0 = Some g ∧
    attrs g !! "model_file" = Some (PyStr "<mujoco/>") ∧
    datasets g !! "states" = Some (Vectors []) ∧
    datasets g !! "actions" = Some (Vectors []).
Proof.
  apply (single_state_episode_is_written single_state_episode (start None)
           [0%float; 1%float] "<mujoco/>").
  - reflexivity.
  - reflexivity.
  - reflexivity.
Defined.

End GatherFacts.

(** * The two threads *)

Module ThreadFacts.
Import Teleop.
Import Tactics.

(** ** Schedules *)

Lemma exec_app (a b : list choice) (s : state) :
  exec (a ++ b) s
  = match exec a s with
    | None => None
    | Some (es, s1) =>
        match exec b s1 with
        | None => None
        | Some (es', s2) => Some (es ++ es', s2)
        end
    end.
Proof.
  revert s. induction a as [|c a IH]; intros s; simpl.
  - by destruct (exec b s) as [[es' s2]|].
  - destruct (step c s) as [[e s1]|]; [|done]. rewrite IH.
    destruct (exec a s1) as [[es s2]|]; [|done].
    by destruct (exec b s2) as [[es' s3]|].
Qed.

Lemma exec_snoc (a : list choice) (c : choice) (s s' : state) (es' : list event) :
  exec (a ++ [c]) s = Some (es', s') →
  ∃ es s1 e,
    exec a s = Some (es, s1) ∧ step c s1 = Some (e, s') ∧ es' = es ++ [e].
Proof.
  rewrite exec_app. destruct (exec a s) as [[es s1]|]; [|done]. simpl.
  destruct (step c s1) as [[e s2]|] eqn:Hc; [|done].
  intros [= <- <-]. by exists es, s1, e.
Qed.

(** What holds at the start and is kept by every step holds of every run. *)
Lemma run_ind (cl : call) (P : list event → state → Prop) :
  P [] (init cl) →
  (∀ es s c e s', P es s → step c s = Some (e, s') → P (es ++ [e]) s') →
  ∀ sched es s, exec sched (init cl) = Some (es, s) → P es s.
Proof.
  intros Hinit Hstep sched.
  induction sched as [|c sched IH] using rev_ind; intros es s.
  - by intros [= <- <-].
  - intros (es0 & s0 & e & Hrun & Hc & ->)%exec_snoc. eauto.
Qed.

(** ** The lock *)

Lemma lock_owner_step (c : choice) (s s' : state) (e : event) :
  lock_owner s → step c s = Some (e, s') → lock_owner s'.
Proof.
  unfold lock_owner. intros [Hl Hx] H. step_cases H; simpl in *.
  all: repeat case_match; simplify_eq; try done.
  all: try (split; [done|]; intros; done).
  all: by specialize (Hx eq_refl).
Qed.

Lemma lock_owner_run
    {cl : call} (sched : list choice) (es : list event) (s : state) :
  exec sched (init cl) = Some (es, s) → lock_owner s.
Proof.
  apply (run_ind cl (λ _ s, lock_owner s)); [done|].
  intros es0 s0 c e s' Hs Hc. exact (lock_owner_step c s0 s' e Hs Hc).
Qed.

Lemma lock_owner_access (c : choice) (s s' : state) (e : event) :
  lock_owner s → step c s = Some (e, s') → holder_at e (lock s).
Proof.
  unfold lock_owner. intros [Hl Hx] H. step_cases H; simpl in *; try done.
  all: repeat case_match; simplify_eq; try done.
  all: by specialize (Hx eq_refl).
Qed.

(** ** Whose step it is *)




(** ** The slot *)

Lemma last_set_snoc (es : list event) (e : event) :
  last_set (es ++ [e])
  = match e with SetAction a => Some a | _ => last_set es end.
Proof.
  unfold last_set. rewrite omap_app.
  destruct e; simpl; rewrite ?app_nil_r; try done.
  by rewrite last_snoc.
Qed.

(** The slot holds what the last [set_action] stored. *)
Lemma slot_is_last_set
    {cl : call} (sched : list choice) (es : list event) (s : state) :
  exec sched (init cl) = Some (es, s) → slot s = last_set es.
Proof.
  apply (run_ind cl (λ es s, slot s = last_set es)); [done|].
  clear. intros es s c e s' Hs H. rewrite last_set_snoc.
  step_cases H; simpl in *; try done.
  all: by repeat case_match.
Qed.

Lemma env_step_reads_slot (c : choice) (s s' : state) (a : list float) :
  step c s = Some (EnvStep a, s') → slot s = Some a.
Proof.
  intros H. remember (EnvStep a) as e eqn:He.
  step_cases H; simpl in *; try done.
  all: repeat case_match; by simplify_eq.
Qed.

(** ** The counter *)

Lemma env_steps_snoc (es : list event) (e : event) :
  env_steps (es ++ [e])
  = match e with EnvStep a => env_steps es ++ [a] | _ => env_steps es end.
Proof.
  unfold env_steps. rewrite omap_app.
  destruct e; simpl; by rewrite ?app_nil_r.
Qed.

Lemma counted_run
    {cl : call} (sched : list choice) (es : list event) (s : state) :
  exec sched (init cl) = Some (es, s) → counted es s.
Proof.
  apply (run_ind cl counted); [done|].
  clear. unfold counted. intros es s c e s' Hs H Hno.
  apply Forall_app in Hno as [Hes He]. rewrite Forall_singleton in He.
  destruct (Hs Hes) as [Hn Hv]. clear Hs.
  rewrite env_steps_snoc.
  step_cases H; simpl in *; try done.
  all: repeat case_match; simplify_eq; simpl in *.
  all: rewrite ?length_app; simpl.
  all: try (split; [lia|]; intros; simplify_eq; done).
  all: try (specialize (Hv _ eq_refl); split; [lia|]; intros; simplify_eq; done).
Qed.

(** ** Leaving the loop and cleaning up *)




(** ** After the join *)






(** ** Sample runs *)

Example race_runs :
  exec race (init solo) = Some (trace_of race, state_of race).
Proof. vm_compute. reflexivity. Qed.

Example first_step_runs :
  exec first_step (init solo) = Some (trace_of first_step, state_of first_step).
Proof. vm_compute. reflexivity. Qed.

Example aborted_runs :
  exec aborted (init solo)
  = Some ([Input None; StopSet; StopRead true; Join; Close], state_of aborted).
Proof. vm_compute. reflexivity. Qed.

Example interrupted_runs :
  exec interrupted (init solo)
  = Some ([Interrupt; StopSet; StopRead true; Join; Raise],
          state_of interrupted).
Proof. vm_compute. reflexivity. Qed.

(** ** The lock and what it guards *)

(** C4, refuted as stated: with the stepper inside its [with] block, the
    controller reads the tick counter at line 129 while the lock is the
    stepper's. *)
Lemma controller_reads_ticks_unlocked :
  lock (state_of race) = Some Stepper ∧
  fst <$> step (RunController Plain) (state_of race)
    = Some (ReadTicks Controller 0) ∧
  ¬ all_accesses_locked.
Proof.
  assert (lock (state_of race) = Some Stepper) as Hlock
    by (vm_compute; reflexivity).
  assert (step (RunController Plain) (state_of race)
          = Some (ReadTicks Controller 0, ctl_to CInput (state_of race)))
    as Hstep by (vm_compute; reflexivity).
  split; [exact Hlock|]. split; [by rewrite Hstep|].
  intros Hall.
  specialize (Hall solo race (trace_of race) (state_of race) (RunController Plain)
                (ReadTicks Controller 0) (ctl_to CInput (state_of race))
                race_runs Hstep eq_refl).
  rewrite Hlock in Hall. discriminate Hall.
Qed.

(** C4, as the code has it.  At every step of every run: the write of the
    action slot, the stepper's test of it, the simulation step and the
    stepper's read and write of the tick counter happen with the lock held
    by the thread that does them, while the controller's read of the
    counter (line 129) and its reset (line 130) happen without the
    controller holding the lock; the simulation is stepped with the action
    that the last [set_action] stored; and as long as the controller has
    not reset the counter, the counter is the number of simulation steps
    whenever the stepper is not between a step and its increment. *)
Theorem shared_accesses (cl : call)
    (sched : list choice) (es : list event) (s s' : state)
    (c : choice) (e : event) :
  exec sched (init cl) = Some (es, s) →
  step c s = Some (e, s') →
  holder_at e (lock s) ∧
  (∀ a, e = EnvStep a → last_set es = Some a) ∧
  (Forall (λ e, is_reset e = false) es →
     stp_counting (stp s) = false →
     ticks s = Z.of_nat (length (env_steps es))).
Proof.
  intros Hrun Hc. split; [|split].
  - apply (lock_owner_access c s s'); [|done].
    by apply (lock_owner_run sched es s Hrun).
  - intros a ->. rewrite <- (slot_is_last_set sched es s Hrun).
    by apply (env_step_reads_slot c s s').
  - intros Hno Hout.
    destruct (counted_run sched es s Hrun Hno) as [Hn _].
    rewrite Hout in Hn. lia.
Qed.

Lemma shared_accesses_witness :
  holder_at (EnvStep zeros) (lock (state_of first_step)) ∧
  (∀ a, EnvStep zeros = EnvStep a → last_set (trace_of first_step) = Some a) ∧
  (Forall (λ e, is_reset e = false) (trace_of first_step) →
     stp_counting (stp (state_of first_step)) = false →
     ticks (state_of first_step)
     = Z.of_nat (length (env_steps (trace_of first_step)))).
Proof.
  apply (shared_accesses solo first_step (trace_of first_step)
           (state_of first_step) (stp_to SLoad (state_of first_step))
           RunStepper (EnvStep zeros)).
  - vm_compute. reflexivity.
  - vm_compute. reflexivity.
Defined.

(** ** The order of the cleanup *)




(** ** The cleanup can always finish *)

Lemma stop_raised_run
    {cl : call} (sched : list choice) (es : list event) (s : state) :
  exec sched (init cl) = Some (es, s) → stop_raised s.
Proof.
  apply (run_ind cl (λ _ s, stop_raised s)); [done|]. clear.
  unfold stop_raised. intros _ s c e s' Hs H.
  step_cases H; simpl in *; try done.
  all: by repeat case_match.
Qed.

Lemma step_has_action_run
    {cl : call} (sched : list choice) (es : list event) (s : state) :
  exec sched (init cl) = Some (es, s) → step_has_action s.
Proof.
  apply (run_ind cl (λ _ s, step_has_action s)); [done|]. clear.
  unfold step_has_action. intros _ s c e s' Hs H.
  step_cases H; simpl in *; try done.
  all: repeat case_match; simplify_eq; try done; by eauto.
Qed.

(** With the stop event set and the lock not the controller's, the stepper
    alone runs to its end: it finishes the iteration it is in and leaves at
    line 49. *)
Lemma stepper_exits (s : state) :
  lock_owner s → step_has_action s →
  stop_event s = true → ctl_in_with (ctl s) = false →
  ∃ n es s',
    exec (replicate n RunStepper) s = Some (es, s') ∧
    stp s' = SExited ∧ ctl s' = ctl s.
Proof.
  unfold lock_owner, step_has_action.
  destruct s as [pc qc lk sl tk ev hd ar]; simpl.
  intros [Hl _] Hslot -> Hpc. rewrite Hpc in Hl.
  destruct qc; simpl in Hl; subst lk.
  - exists 1%nat. by eexists _, _.
  - destruct sl; [exists 8%nat|exists 5%nat]; by eexists _, _.
  - destruct sl; [exists 7%nat|exists 4%nat]; by eexists _, _.
  - destruct (Hslot eq_refl) as [a ->]. exists 6%nat. by eexists _, _.
  - exists 5%nat. by eexists _, _.
  - exists 4%nat. by eexists _, _.
  - exists 3%nat. by eexists _, _.
  - exists 2%nat. by eexists _, _.
  - exists 0%nat. by eexists _, _.
Qed.

(** From the join of line 139 (or 134) of any run, some continuation takes
    the call to its end: the join does not wait for ever. *)
Lemma cleanup_can_finish
    {cl : call} (sched : list choice) (es : list event) (s : state) :
  exec sched (init cl) = Some (es, s) →
  ctl s = CJoin ∨ ctl s = XJoin →
  ∃ n es' s',
    exec (replicate n RunStepper ++ [RunController Plain; RunController Plain]) s
    = Some (es', s') ∧
    (ctl s' = CReturned ∨ ctl s' = XRaised).
Proof.
  intros Hrun Hpc.
  pose proof (lock_owner_run _ _ _ Hrun) as Hlock.
  pose proof (step_has_action_run _ _ _ Hrun) as Hslot.
  pose proof (stop_raised_run _ _ _ Hrun) as Hstop.
  unfold stop_raised in Hstop.
  destruct (stepper_exits s Hlock Hslot) as (n & es1 & s1 & Hn & Hexit & Hctl).
  { by destruct Hpc as [Hpc|Hpc]; rewrite Hpc in Hstop. }
  { by destruct Hpc as [Hpc|Hpc]; rewrite Hpc. }
  exists n. rewrite exec_app, Hn.
  destruct s1 as [pc qc lk sl tk ev hd ar]; simpl in *. subst qc.
  destruct Hpc as [Hpc|Hpc]; rewrite Hpc in Hctl; subst pc; simpl.
  - eexists _, _. split; [done|]. by left.
  - eexists _, _. split; [done|]. by right.
Qed.

(** ** What [set_action] stores *)

Lemma clamped_in_hand_run
    {cl : call} (sched : list choice) (es : list event) (s : state) :
  exec sched (init cl) = Some (es, s) → clamped_in_hand es s.
Proof.
  apply (run_ind cl clamped_in_hand).
  { by intros a' [|]. }
  clear. unfold clamped_in_hand. intros es s c e s' Hs H.
  assert (∀ b, ctl s = CAcquire b ∨ ctl s = CAssign b →
            ∃ a, Input (Some a) ∈ es ++ [e] ∧ clamp_deadzone a = Some b) as Hs'.
  { intros b (a & Hin & Hc)%Hs. exists a. split; [|done].
    apply elem_of_app. by left. }
  clear Hs.
  step_cases H; simpl in *.
  all: repeat case_match; simplify_eq; simpl.
  all: intros act Hb.
  all: try (by destruct Hb).
  all: try (by apply Hs').
  all: try (destruct Hb as [[= <-]|[= <-]]; apply Hs'; auto; fail).
  destruct Hb as [[= <-]|[=]]. eexists. split; [|done].
  apply elem_of_app. right. by apply list_elem_of_singleton.
Qed.

(** Every action stored in the slot is an action of the device, clamped. *)
Lemma set_action_is_clamped {cl : call}
    (sched : list choice) (es : list event) (s s' : state)
    (c : choice) (a' : list float) :
  exec sched (init cl) = Some (es, s) →
  step c s = Some (SetAction a', s') →
  ∃ a, Input (Some a) ∈ es ∧ clamp_deadzone a = Some a'.
Proof.
  intros Hrun H. apply (clamped_in_hand_run sched es s Hrun).
  remember (SetAction a') as e eqn:He.
  step_cases H; simpl in *; try done.
  all: repeat case_match; simplify_eq; auto.
Qed.

(** ** The reset of line 130 races with the increment of line 54 *)

(** The controller zeroes the counter between the stepper's read and write
    of it: the stepper's write puts 501 back, and the reset is lost. *)
Example reset_can_be_lost :
  drop 4012 (trace_of lost_reset)
  = [ReadTicks Controller 500; WriteTicks Controller 0; WriteTicks Stepper 501] ∧
  ticks (state_of lost_reset) = 501 ∧
  ctl (state_of lost_reset) = CStop.
Proof. vm_compute. repeat split; reflexivity. Qed.

(** ** An exception that is not a [KeyboardInterrupt] *)

(** An action too short for the clamp raises at lines 104-105; line 132
    does not catch it: the call is over with the stop event not set, and
    the stepper goes on. *)
Example crash_skips_cleanup :
  exec [RunController (FromDevice (Some short_action))] (init solo)
  = Some ([Input (Some short_action)], ctl_to CCrashed (init solo)) ∧
  (∀ x, step (RunController x) (ctl_to CCrashed (init solo)) = None) ∧
  fst <$> step RunStepper (ctl_to CCrashed (init solo)) = Some (StopRead false).
Proof.
  split; [vm_compute; reflexivity|]. split; [|reflexivity].
  intros [|[a|]|b|]; reflexivity.
Qed.

(** ** One iteration, as a function and as steps *)

(** From the head of the loop with the lock free, the latch off 0 and the
    counter below the budget, in a call whose line 96 finds its robot, the
    controller's eight steps of an iteration store the clamped action, move
    the latch and come back to the head of the loop, as [collect_loop] does
    with the same answers. *)
Lemma iteration_agrees (s : state) (t : tick) (rest : list tick) (a a' : list float) :
  ctl s = CInput → lock s = None →
  is_Some (robot_of (args s)) →
  device t = Some a → clamp_deadzone a = Some a' →
  hold s ≠ 0 → ticks s = timestamps t → timestamps t < max_steps →
  ∃ es s',
    exec (iteration t) s = Some (es, s') ∧
    ctl_events es
    = [Input (Some a); Acquire Controller; SetAction a'; Release Controller;
       Render; HoldTest false; CheckSuccess (check_success t);
       ReadTicks Controller (timestamps t)] ∧
    ctl s' = CInput ∧ lock s' = None ∧ slot s' = Some a' ∧
    hold s' = latch (hold s) (check_success t) ∧
    args s' = args s ∧
    collect_loop (args s) (hold s) (t :: rest)
    = push a' (held (hold s') (collect_loop (args s) (hold s') rest)).
Proof.
  destruct s as [pc qc lk sl tk ev hd ar]; simpl.
  intros -> -> [r Hr] Hdev Hclamp Hhold -> Hbudget.
  unfold iteration. rewrite Hdev. simpl. rewrite Hr, Hclamp. simpl.
  destruct (Z.eqb_spec hd 0) as [|_]; [done|]. simpl.
  destruct (Z.leb_spec max_steps (timestamps t)) as [|_]; [lia|]. simpl.
  eexists _, _. split; [reflexivity|]. simpl. repeat split; reflexivity.
Qed.

End ThreadFacts.

(** * More on the aggregation *)

Module GatherMore.
Import Gather GatherFacts.

(** ** What is loaded from an episode's files *)

Lemma load_fold_poses (cs : list chunk) (acc : loaded) :
  centric_obj_pose (foldl load_chunk acc cs)
  = centric_obj_pose acc ++ concat (dic_centric_obj_pose <$> cs).
Proof.
  revert acc. induction cs as [|c cs IH]; intros acc; simpl.
  - by rewrite app_nil_r.
  - rewrite IH. cbn [centric_obj_pose load_chunk]. by rewrite <- app_assoc.
Qed.

Lemma load_fold_marks (cs : list chunk) (acc : loaded) :
  subtask_begin_index (foldl load_chunk acc cs)
  = subtask_begin_index acc ++ concat (dic_subtask_begin_index <$> cs).
Proof.
  revert acc. induction cs as [|c cs IH]; intros acc; simpl.
  - by rewrite app_nil_r.
  - rewrite IH. cbn [subtask_begin_index load_chunk]. by rewrite <- app_assoc.
Qed.

(** The accumulators are the concatenations over the sorted files, and the
    flag is [True]; only [env_name] depends on the episodes before. *)
Lemma load_episode_fields (e : option string) (ep : ep_dir) :
  load_episode e ep
  = {| env_name := match last (chunks_of ep) with
                   | Some c => Some (dic_env c)
                   | None => e
                   end;
       states := all_states ep; actions := all_actions ep;
       centric_obj_pose := all_poses ep; subtask_begin_index := all_marks ep;
       success := true |}.
Proof.
  pose proof (load_episode_env e ep) as He.
  pose proof (load_episode_success e ep) as Hs.
  pose proof (load_fold_states (chunks_of ep) (fresh e)) as Hst.
  pose proof (load_fold_actions (chunks_of ep) (fresh e)) as Hac.
  pose proof (load_fold_poses (chunks_of ep) (fresh e)) as Hpo.
  pose proof (load_fold_marks (chunks_of ep) (fresh e)) as Hma.
  fold (load_episode e ep) in Hst, Hac, Hpo, Hma.
  destruct (load_episode e ep) as [en st ac po ma su]; simpl in *.
  by subst.
Qed.

(** ** An entry without states *)

Lemma episode_stateless (ep : ep_dir) (p : progress) :
  all_states ep = [] →
  episode ep p
  = ({| file := file p; num_eps := num_eps p;
        last_env := env_name (load_episode (last_env p) ep) |}, None).
Proof.
  intros Hs. unfold episode.
  rewrite decide_True; [done|]. by rewrite load_episode_fields, Hs.
Qed.

(** What the loop writes and counts and how it ends do not depend on the
    [env_name] it starts with. *)
Lemma episodes_env_irrelevant (eps : list (string * ep_dir)) (p q : progress) :
  file p = file q → num_eps p = num_eps q →
  file (episodes eps p).1 = file (episodes eps q).1 ∧
  num_eps (episodes eps p).1 = num_eps (episodes eps q).1 ∧
  (episodes eps p).2 = (episodes eps q).2.
Proof.
  revert p q. induction eps as [|[n ep] eps IH]; intros p q Hf Hn; [done|].
  simpl. unfold episode. rewrite !load_episode_fields. simpl.
  rewrite Hf, Hn.
  repeat case_match; simplify_eq; simpl; try done; by apply IH.
Qed.

Lemma all_states_nil (ep : ep_dir) :
  Forall (λ c, dic_states c = []) (chunks_of ep) → all_states ep = [].
Proof.
  unfold all_states. induction 1 as [|c cs Hc _ IH]; [done|].
  rewrite fmap_cons. change (concat (?x :: ?l)) with (x ++ concat l).
  by rewrite Hc, IH.
Qed.

(** Once an entry has raised, the entries after it are not looked at. *)
Lemma episodes_stop (pre rest : list (string * ep_dir)) (p q : progress) (e : error) :
  episodes pre p = (q, Some e) → episodes (pre ++ rest) p = (q, Some e).
Proof.
  revert p. induction pre as [|[n ep] pre IH]; intros p; simpl; [done|].
  destruct (episode ep p) as [p1 [e1|]]; [done|]. apply IH.
Qed.

(** X1. An entry of the listing whose chunk files hold no state (lines
    199-200) is passed over, but not without trace: line 190 has set
    [env_name] from its files.  The run writes the same groups as without
    the entry, and ends the same way, except that the entry can save the
    run from the [TypeError] of line 233; the whole outcome is the same
    when the entry has no chunk file or a chunk file is loaded after it;
    and when none is loaded after it and the run completes, the [env]
    attribute is the name in the entry's last file. *)
Theorem stateless_entry_is_skipped
    (old : option h5file) (pre : list (string * ep_dir)) (name : string)
    (ep : ep_dir) (post : list (string * ep_dir))
    (env_info version : string) (now : datetime) :
  Forall (λ c, dic_states c = []) (chunks_of ep) →
  let out := gather_demonstrations_as_hdf5 old (pre ++ (name, ep) :: post)
               env_info version now in
  let out' := gather_demonstrations_as_hdf5 old (pre ++ post)
                env_info version now in
  data_groups out.1 = data_groups out'.1 ∧
  (out.2 = out'.2 ∨ (out.2 = None ∧ out'.2 = Some TypeError)) ∧
  (chunks_of ep = [] ∨ all_chunks post ≠ [] → out = out') ∧
  (out.2 = None → all_chunks post = [] →
   ∀ c, last (chunks_of ep) = Some c →
     data_attrs out.1 !! "env" = Some (PyStr (dic_env c))).
Proof.
  intros Hs%all_states_nil out out'. subst out out'.
  unfold gather_demonstrations_as_hdf5.
  destruct (episodes pre (start old)) as [p [e|]] eqn:Hpre.
  { rewrite !(episodes_stop pre _ _ _ _ Hpre). simpl.
    split; [done|]. split; [by left|]. by split. }
  rewrite !(episodes_app pre _ _ _ Hpre). simpl.
  rewrite (episode_stateless ep p Hs).
  set (q := {| file := file p; num_eps := num_eps p;
               last_env := env_name (load_episode (last_env p) ep) |}).
  destruct (episodes_env_irrelevant post q p eq_refl eq_refl)
    as (Hf & Hn & He).
  destruct (episodes post q) as [q1 [e1|]] eqn:Hq,
           (episodes post p) as [p1 [e2|]] eqn:Hp; simpl in *; try done.
  { assert (e1 = e2) as -> by congruence. rewrite Hf.
    split; [done|]. split; [by left|]. by split. }
  apply episodes_last_env in Hq, Hp. simpl in Hq.
  rewrite load_episode_env in Hq. rewrite Hf, Hq, Hp. clear.
  rewrite !write_metadata_groups, !write_metadata_error.
  destruct (last (all_chunks post)) as [c|] eqn:Hpost.
  { split; [done|]. split; [by left|]. split; [done|].
    intros _ Hnil. by rewrite Hnil in Hpost. }
  apply last_None in Hpost.
  destruct (last (chunks_of ep)) as [c|] eqn:Hep.
  - split; [done|]. split; [|split].
    + destruct (last_env p); [by left|by right].
    + intros [Hnil|Hne]; [by rewrite Hnil in Hep|done].
    + intros _ _ c' [= <-]. unfold write_metadata, set_attr. simpl.
      rewrite lookup_insert_ne by done. by rewrite lookup_insert_eq.
  - split; [done|]. split; [by left|]. split; [done|]. by intros _ _ c.
Qed.

Lemma stateless_entry_is_skipped_witness :
  data_groups
    (gather_demonstrations_as_hdf5 None
       ([] ++ ("ep_1", stateless_episode) :: []) "{}" "1.4.0" noon).1
  = data_groups
      (gather_demonstrations_as_hdf5 None ([] ++ []) "{}" "1.4.0" noon).1 ∧
  ((gather_demonstrations_as_hdf5 None
      ([] ++ ("ep_1", stateless_episode) :: []) "{}" "1.4.0" noon).2
   = (gather_demonstrations_as_hdf5 None ([] ++ []) "{}" "1.4.0" noon).2
   ∨ ((gather_demonstrations_as_hdf5 None
         ([] ++ ("ep_1", stateless_episode) :: []) "{}" "1.4.0" noon).2 = None
      ∧ (gather_demonstrations_as_hdf5 None ([] ++ []) "{}" "1.4.0" noon).2
        = Some TypeError)) ∧
  (chunks_of stateless_episode = [] ∨ all_chunks [] ≠ [] →
   gather_demonstrations_as_hdf5 None
     ([] ++ ("ep_1", stateless_episode) :: []) "{}" "1.4.0" noon
   = gather_demonstrations_as_hdf5 None ([] ++ []) "{}" "1.4.0" noon) ∧
  ((gather_demonstrations_as_hdf5 None
      ([] ++ ("ep_1", stateless_episode) :: []) "{}" "1.4.0" noon).2 = None →
   all_chunks [] = [] →
   ∀ c, last (chunks_of stateless_episode) = Some c →
     data_attrs
       (gather_demonstrations_as_hdf5 None
          ([] ++ ("ep_1", stateless_episode) :: []) "{}" "1.4.0" noon).1
       !! "env" = Some (PyStr (dic_env c))).
Proof.
  apply (stateless_entry_is_skipped None [] "ep_1" stateless_episode []
           "{}" "1.4.0" noon).
  repeat constructor.
Defined.

(** The entry alone: the run completes with [env] set and no group; the
    empty listing raises at line 233. *)
Example stateless_entry_sets_env :
  (gather_demonstrations_as_hdf5 None [("ep_1", stateless_episode)]
     "{}" "1.4.0" noon).2 = None ∧
  data_attrs
    (gather_demonstrations_as_hdf5 None [("ep_1", stateless_episode)]
       "{}" "1.4.0" noon).1 !! "env" = Some (PyStr "Door") ∧
  (gather_demonstrations_as_hdf5 None [] "{}" "1.4.0" noon).2 = Some TypeError.
Proof. repeat split; vm_compute; reflexivity. Qed.

(** ** What a kept episode's group holds *)

Lemma episode_with_states (ep : ep_dir) (p : progress) :
  all_states ep ≠ [] →
  episode ep p
  = let l := load_episode (last_env p) ep in
    let name := demo_name (num_eps p) in
    if decide (length (removelast (all_states ep)) = length (all_actions ep))
    then
      match model_xml ep with
      | None =>
          ({| file := create_group name (file p); num_eps := S (num_eps p);
              last_env := env_name l |}, Some FileNotFoundError)
      | Some xml_str =>
          ({| file := put_group name
                        (fill_group xml_str l (removelast (all_states ep)))
                        (create_group name (file p));
              num_eps := S (num_eps p); last_env := env_name l |}, None)
      end
    else
      ({| file := file p; num_eps := num_eps p; last_env := env_name l |},
       Some AssertionError).
Proof.
  intros Hne.
  assert (states (load_episode (last_env p) ep) = all_states ep) as Hs
    by by rewrite load_episode_fields.
  assert (actions (load_episode (last_env p) ep) = all_actions ep) as Ha
    by by rewrite load_episode_fields.
  rewrite episode_retained by by rewrite Hs.
  by rewrite Hs, Ha.
Qed.

(** X2. An episode with one state more than actions and its [model.xml]
    there gets the next free name [demo_N]; its group holds the text of
    [model.xml] as [model_file], and as datasets the states of all its
    chunk files, concatenated in sorted order of the paths, without the
    last one, and the actions, poses and subtask marks of all its chunk
    files, concatenated in the same order.  Nothing else of the file
    changes, and the count goes up by one. *)
Theorem kept_episode_holds_merged_chunks
    (ep : ep_dir) (p : progress) (xml_str : string) :
  all_states ep ≠ [] →
  length (all_states ep) = S (length (all_actions ep)) →
  model_xml ep = Some xml_str →
  (episode ep p).2 = None ∧
  num_eps (episode ep p).1 = S (num_eps p) ∧
  data_attrs (file (episode ep p).1) = data_attrs (file p) ∧
  data_groups (file (episode ep p).1)
  = <[demo_name (num_eps p) :=
        {| attrs := {[ "model_file" := PyStr xml_str ]};
           datasets :=
             <["subtask_begin_index" := Integers (all_marks ep)]>
             (<["centric_obj_pose" := Vectors (all_poses ep)]>
             (<["actions" := Vectors (all_actions ep)]>
             (<["states" := Vectors (removelast (all_states ep))]> ∅))) |}]>
    (data_groups (file p)).
Proof.
  intros Hne Hlen Hxml.
  pose proof (removelast_length (all_states ep) Hne) as Hrl.
  rewrite (episode_with_states ep p Hne). cbv zeta.
  rewrite decide_True by lia. rewrite Hxml. simpl.
  repeat split. rewrite insert_insert_eq.
  unfold fill_group. by rewrite load_episode_fields.
Qed.

Lemma kept_episode_holds_merged_chunks_witness :
  (episode mixed_episode (start None)).2 = None ∧
  num_eps (episode mixed_episode (start None)).1 = 1%nat ∧
  data_attrs (file (episode mixed_episode (start None)).1)
  = data_attrs (file (start None)) ∧
  data_groups (file (episode mixed_episode (start None)).1)
  = <[demo_name 0 :=
        {| attrs := {[ "model_file" := PyStr "<mujoco/>" ]};
           datasets :=
             <["subtask_begin_index" := Integers (all_marks mixed_episode)]>
             (<["centric_obj_pose" := Vectors (all_poses mixed_episode)]>
             (<["actions" := Vectors (all_actions mixed_episode)]>
             (<["states" := Vectors (removelast (all_states mixed_episode))]>
                ∅))) |}]>
    (data_groups (file (start None))).
Proof.
  apply (kept_episode_holds_merged_chunks mixed_episode (start None) "<mujoco/>").
  - discriminate.
  - reflexivity.
  - reflexivity.
Defined.

(** ** A missing model file *)

(** X3. When a run reaches an episode with one state more than actions
    whose [model.xml] is missing, it ends with the error of line 216; the
    group [demo_N] of that episode is already created and is left empty,
    the groups written before stay, and no metadata is written. *)
Theorem missing_model_leaves_empty_group
    (old : option h5file) (pre : list (string * ep_dir)) (name : string)
    (ep : ep_dir) (post : list (string * ep_dir))
    (env_info version : string) (now : datetime) (p : progress) :
  episodes pre (start old) = (p, None) →
  all_states ep ≠ [] →
  length (all_states ep) = S (length (all_actions ep)) →
  model_xml ep = None →
  let out := gather_demonstrations_as_hdf5 old (pre ++ (name, ep) :: post)
               env_info version now in
  out.2 = Some FileNotFoundError ∧
  data_attrs out.1 = ∅ ∧
  data_groups out.1
  = <[demo_name (num_eps p) := empty_group]> (data_groups (file p)).
Proof.
  intros Hpre Hne Hlen Hxml.
  pose proof (removelast_length (all_states ep) Hne) as Hrl.
  unfold gather_demonstrations_as_hdf5.
  rewrite (episodes_app pre _ _ _ Hpre). simpl.
  rewrite (episode_with_states ep p Hne). cbv zeta.
  rewrite decide_True by lia. rewrite Hxml. simpl.
  split; [done|]. split; [|done].
  pose proof (episodes_attrs pre (start old)) as Ha.
  by rewrite Hpre in Ha.
Qed.

Lemma missing_model_leaves_empty_group_witness :
  (gather_demonstrations_as_hdf5 None
     ([("ep_1", aligned_episode)] ++ ("ep_2", modelless_episode) :: [])
     "{}" "1.4.0" noon).2 = Some FileNotFoundError ∧
  data_attrs
    (gather_demonstrations_as_hdf5 None
       ([("ep_1", aligned_episode)] ++ ("ep_2", modelless_episode) :: [])
       "{}" "1.4.0" noon).1 = ∅ ∧
  data_groups
    (gather_demonstrations_as_hdf5 None
       ([("ep_1", aligned_episode)] ++ ("ep_2", modelless_episode) :: [])
       "{}" "1.4.0" noon).1
  = <[demo_name 1 := empty_group]>
      (data_groups (file (episode aligned_episode (start None)).1)).
Proof.
  apply (missing_model_leaves_empty_group None [("ep_1", aligned_episode)]
           "ep_2" modelless_episode [] "{}" "1.4.0" noon
           (episode aligned_episode (start None)).1).
  - reflexivity.
  - discriminate.
  - reflexivity.
  - reflexivity.
Defined.

(** ** The metadata *)

Lemma episode_error (ep : ep_dir) (p : progress) :
  (episode ep p).2 ≠ Some TypeError.
Proof. unfold episode. by repeat case_match. Qed.

Lemma episodes_error_in_loop (eps : list (string * ep_dir)) (p : progress) :
  (episodes eps p).2 ≠ Some TypeError.
Proof.
  revert p. induction eps as [|[n ep] eps IH]; intros p; simpl; [done|].
  pose proof (episode_error ep p) as He.
  by destruct (episode ep p) as [q [e|]].
Qed.

(** A listing without any chunk file goes through the loop untouched. *)
Lemma episodes_no_chunk (eps : list (string * ep_dir)) (p : progress) :
  all_chunks eps = [] →
  ∃ q, episodes eps p = (q, None) ∧ file q = file p ∧ last_env q = last_env p.
Proof.
  revert p. induction eps as [|[n ep] eps IH]; intros p; [by exists p|].
  rewrite all_chunks_cons. intros [Hep Heps]%app_eq_nil. simpl.
  assert (all_states ep = []) as Hs by (unfold all_states; by rewrite Hep).
  rewrite (episode_stateless ep p Hs).
  destruct (IH {| file := file p; num_eps := num_eps p;
                  last_env := env_name (load_episode (last_env p) ep) |} Heps)
    as (q & Hq & Hf & He).
  exists q. split; [done|]. split; [done|].
  rewrite He. simpl. by rewrite load_episode_env, Hep.
Qed.

(** X4. What a run leaves of the top-level attributes tells how it ended.
    A run that raises nothing leaves [date], [time], [repository_version],
    [env] and [env_info] and no other attribute, with the caller's
    [env_info] and the version as they are and the date and time of the
    clock.  A run that raised in the loop leaves no attribute.  And a run
    over a listing without any chunk file (an empty directory, say), and
    no other run, raises the [TypeError] of line 233: [env_name] is still
    [None]; it leaves the three attributes written before that line, and
    no group. *)
Theorem metadata_marks_completion
    (old : option h5file) (directory : list (string * ep_dir))
    (env_info version : string) (now : datetime) :
  let out := gather_demonstrations_as_hdf5 old directory env_info version now in
  (out.2 = Some TypeError ↔ all_chunks directory = []) ∧
  match out.2 with
  | None =>
      dom (data_attrs out.1) = metadata_keys ∧
      data_attrs out.1 !! "date" = Some (PyStr (date_attr now)) ∧
      data_attrs out.1 !! "time" = Some (PyStr (time_attr now)) ∧
      data_attrs out.1 !! "repository_version" = Some (PyStr version) ∧
      data_attrs out.1 !! "env_info" = Some (PyStr env_info)
  | Some TypeError =>
      data_attrs out.1 = clock_and_version now version ∧
      data_groups out.1 = ∅
  | Some _ => data_attrs out.1 = ∅
  end.
Proof.
  unfold gather_demonstrations_as_hdf5.
  pose proof (episodes_attrs directory (start old)) as Ha.
  pose proof (episodes_error_in_loop directory (start old)) as Hloop.
  destruct (episodes directory (start old)) as [p [e|]] eqn:Hrun; simpl in *.
  - split; [|by destruct e].
    split; [by intros [= ->]|].
    intros (q & Hq & _)%(episodes_no_chunk _ (start old)). congruence.
  - pose proof (episodes_last_env _ _ _ Hrun) as Henv. simpl in Henv.
    rewrite Henv. unfold write_metadata, set_attr. rewrite Ha.
    destruct (last (all_chunks directory)) as [c|] eqn:Hlast; simpl.
    + split.
      { split; [done|]. intros Hnil. by rewrite Hnil in Hlast. }
      split; [|by repeat split].
      rewrite !dom_insert_L, dom_empty_L. unfold metadata_keys.
      apply set_eq. intros k. rewrite !elem_of_union, !elem_of_singleton.
      rewrite elem_of_empty. tauto.
    + apply last_None in Hlast. split; [done|]. split; [done|].
      destruct (episodes_no_chunk directory (start old) Hlast)
        as (q & Hq & Hf & _).
      assert (q = p) as -> by congruence. by rewrite Hf.
Qed.

Example empty_directory_raises :
  gather_demonstrations_as_hdf5 None [] "{}" "1.4.0" noon
  = ({| data_attrs := clock_and_version noon "1.4.0"; data_groups := ∅ |},
     Some TypeError).
Proof. reflexivity. Qed.

(** ** The names of the groups *)

Lemma demo_name_inj (n m : nat) : demo_name n = demo_name m → n = m.
Proof.
  unfold demo_name. intros H%String.app_inj. by apply pretty_nat_inj in H.
Qed.

Lemma demo_names_S (n : nat) :
  demo_names (S n) = demo_names n ∪ {[ demo_name n ]}.
Proof.
  unfold demo_names. rewrite seq_S, fmap_app, list_to_set_app_L. simpl.
  by rewrite (right_id_L ∅ (∪)).
Qed.

Lemma demo_name_fresh (n : nat) : demo_name n ∉ demo_names n.
Proof.
  unfold demo_names. rewrite elem_of_list_to_set, list_elem_of_fmap.
  intros (m & Heq%demo_name_inj & Hm%elem_of_seq). lia.
Qed.

Lemma elem_of_demo_names (k : string) (n : nat) :
  k ∈ demo_names n ↔ ∃ i, (i < n)%nat ∧ k = demo_name i.
Proof.
  unfold demo_names. rewrite elem_of_list_to_set, list_elem_of_fmap.
  split.
  - intros (i & -> & Hi%elem_of_seq). exists i. split; [lia|done].
  - intros (i & Hi & ->). exists i. split; [done|]. apply elem_of_seq. lia.
Qed.

Lemma episode_numbered (ep : ep_dir) (p : progress) :
  numbered p →
  numbered (episode ep p).1 ∧
  (num_eps p ≤ num_eps (episode ep p).1 ≤ S (num_eps p))%nat ∧
  data_groups (file p) ⊆ data_groups (file (episode ep p).1).
Proof.
  unfold numbered. intros Hp.
  assert (data_groups (file p) !! demo_name (num_eps p) = None) as Hfresh.
  { apply not_elem_of_dom. rewrite Hp. apply demo_name_fresh. }
  unfold episode.
  destruct (decide (length (states (load_episode (last_env p) ep)) = 0%nat));
    [simpl; split; [done|split; [lia|done]]|].
  destruct (success (load_episode (last_env p) ep));
    [|simpl; split; [done|split; [lia|done]]].
  destruct (decide (length (removelast (states (load_episode (last_env p) ep)))
                    = length (actions (load_episode (last_env p) ep))));
    [|simpl; split; [done|split; [lia|done]]].
  destruct (model_xml ep) as [xml_str|]; simpl.
  - split; [|split; [lia|]].
    + rewrite !dom_insert_L, Hp, demo_names_S.
      rewrite (assoc_L (∪)), (idemp_L (∪)). apply (comm_L (∪)).
    + rewrite insert_insert_eq. by apply insert_subseteq.
  - split; [|split; [lia|]].
    + rewrite dom_insert_L, Hp, demo_names_S. apply (comm_L (∪)).
    + by apply insert_subseteq.
Qed.

Lemma episodes_numbered (eps : list (string * ep_dir)) (p : progress) :
  numbered p →
  numbered (episodes eps p).1 ∧
  (num_eps p ≤ num_eps (episodes eps p).1 ≤ num_eps p + length eps)%nat ∧
  data_groups (file p) ⊆ data_groups (file (episodes eps p).1).
Proof.
  revert p. induction eps as [|[n ep] eps IH]; intros p Hp; simpl.
  - split; [done|]. split; [lia|done].
  - destruct (episode_numbered ep p Hp) as (Hq & Hn & Hsub).
    destruct (episode ep p) as [q [e|]]; simpl in *.
    + split; [done|]. split; [lia|done].
    + destruct (IH q Hq) as (Hr & Hm & Hsub').
      split; [done|]. split; [lia|]. by etrans.
Qed.

(** X5. Whether it completes or raises, a run leaves the groups named
    [demo_0], [demo_1], ... without a gap: the names in the file are
    exactly [demo_i] for [i] below the number of groups, and there are at
    most as many as entries in the listing.  (Entries passed over take no
    number.) *)
Theorem groups_are_numbered_without_gap
    (old : option h5file) (directory : list (string * ep_dir))
    (env_info version : string) (now : datetime) :
  let out := gather_demonstrations_as_hdf5 old directory env_info version now in
  let n := size (data_groups out.1) in
  (n ≤ length directory)%nat ∧
  ∀ k : string,
    is_Some (data_groups out.1 !! k) ↔ ∃ i : nat, (i < n)%nat ∧ k = demo_name i.
Proof.
  intros out n.
  destruct (episodes_numbered directory (start old)) as (Hnum & Hn & _);
    [done|].
  assert (data_groups out.1 = data_groups (file (episodes directory (start old)).1))
    as Hout.
  { subst out. apply gather_groups. }
  unfold numbered in Hnum.
  assert (n = num_eps (episodes directory (start old)).1) as Hsize.
  { subst n. rewrite Hout, <- size_dom, Hnum. unfold demo_names.
    rewrite size_list_to_set, length_fmap, length_seq; [done|].
    apply NoDup_fmap_2; [|apply NoDup_seq].
    intros i j. apply demo_name_inj. }
  split; [simpl in Hn; lia|].
  intros k. rewrite Hout, <- elem_of_dom, Hnum, Hsize.
  apply elem_of_demo_names.
Qed.

(** X6. A group once written is not touched again: after the entries
    [pre] of a listing are done without error, whatever entries follow,
    every group then in the file is in the file the run leaves, with the
    same contents. *)
Theorem later_entries_keep_earlier_groups
    (old : option h5file) (pre post : list (string * ep_dir))
    (env_info version : string) (now : datetime)
    (p : progress) (k : string) (g : group) :
  episodes pre (start old) = (p, None) →
  data_groups (file p) !! k = Some g →
  data_groups
    (gather_demonstrations_as_hdf5 old (pre ++ post) env_info version now).1
    !! k = Some g.
Proof.
  intros Hpre Hk.
  destruct (episodes_numbered pre (start old)) as (Hp & _ & _); [done|].
  rewrite Hpre in Hp. simpl in Hp.
  destruct (episodes_numbered post p Hp) as (_ & _ & Hsub).
  rewrite gather_groups, (episodes_app pre post _ _ Hpre).
  by apply (lookup_weaken _ _ _ _ Hk).
Qed.

Lemma later_entries_keep_earlier_groups_witness :
  data_groups
    (gather_demonstrations_as_hdf5 None
       ([("ep_1", aligned_episode)] ++ [("ep_2", misaligned_episode)])
       "{}" "1.4.0" noon).1 !! "demo_0"
  = Some (fill_group "<mujoco/>" (load_episode None aligned_episode)
            (removelast (all_states aligned_episode))).
Proof.
  apply (later_entries_keep_earlier_groups None [("ep_1", aligned_episode)]
           [("ep_2", misaligned_episode)] "{}" "1.4.0" noon
           (episode aligned_episode (start None)).1).
  - reflexivity.
  - vm_compute. reflexivity.
Defined.

(** ** Every group is aligned *)

Lemma episode_complete (ep : ep_dir) (p : progress) :
  (∀ k g, data_groups (file p) !! k = Some g → complete_group g) →
  (episode ep p).2 ≠ Some FileNotFoundError →
  ∀ k g, data_groups (file (episode ep p).1) !! k = Some g → complete_group g.
Proof.
  intros Hp. unfold episode.
  destruct (decide (length (states (load_episode (last_env p) ep)) = 0%nat));
    [done|].
  destruct (success (load_episode (last_env p) ep)); [|done].
  destruct (decide (length (removelast (states (load_episode (last_env p) ep)))
                    = length (actions (load_episode (last_env p) ep))))
    as [Hlen|]; [|done].
  destruct (model_xml ep) as [xml_str|]; simpl; [|done].
  intros _ k g. rewrite insert_insert_eq, lookup_insert.
  destruct (decide (demo_name (num_eps p) = k)) as [Hk|Hk]; [|by apply Hp].
  intros [= <-].
  unfold complete_group, fill_group. simpl. by eexists _, _, _, _, _.
Qed.

Lemma episodes_complete (eps : list (string * ep_dir)) (p : progress) :
  (∀ k g, data_groups (file p) !! k = Some g → complete_group g) →
  (episodes eps p).2 ≠ Some FileNotFoundError →
  ∀ k g, data_groups (file (episodes eps p).1) !! k = Some g → complete_group g.
Proof.
  revert p. induction eps as [|[n ep] eps IH]; intros p Hp; simpl; [done|].
  pose proof (episode_complete ep p Hp) as Hq.
  destruct (episode ep p) as [q [e|]]; simpl in *; [done|].
  apply IH. by apply Hq.
Qed.

(** X7. Unless the run ended on a missing [model.xml], every group in the
    file it leaves has the model as its one attribute, exactly the four
    datasets, and as many rows in [states] as in [actions]; this holds of
    completed runs and of runs stopped by line 209 alike. *)
Theorem groups_are_aligned
    (old : option h5file) (directory : list (string * ep_dir))
    (env_info version : string) (now : datetime) (k : string) (g : group) :
  let out := gather_demonstrations_as_hdf5 old directory env_info version now in
  out.2 ≠ Some FileNotFoundError →
  data_groups out.1 !! k = Some g →
  complete_group g.
Proof.
  intros out. subst out. rewrite gather_groups.
  unfold gather_demonstrations_as_hdf5.
  pose proof (episodes_complete directory (start old)) as Hall.
  destruct (episodes directory (start old)) as [p [e|]]; simpl in *.
  - intros He. by apply Hall.
  - intros _. by apply Hall.
Qed.

Lemma groups_are_aligned_witness :
  complete_group
    (fill_group "<mujoco/>" (load_episode None aligned_episode)
       (removelast (all_states aligned_episode))).
Proof.
  apply (groups_are_aligned None
           [("ep_1", aligned_episode); ("ep_2", misaligned_episode)]
           "{}" "1.4.0" noon "demo_0").
  - discriminate.
  - vm_compute. reflexivity.
Defined.

(** ** The order in which the files are loaded *)

Lemma ascii_compare_lt_trans (a b c : Ascii.ascii) :
  Ascii.compare a b = Lt → Ascii.compare b c = Lt → Ascii.compare a c = Lt.
Proof.
  unfold Ascii.compare. rewrite !N.compare_lt_iff. apply N.lt_trans.
Qed.

Lemma string_compare_lt_trans (s1 s2 s3 : string) :
  String.compare s1 s2 = Lt → String.compare s2 s3 = Lt →
  String.compare s1 s3 = Lt.
Proof.
  revert s2 s3. induction s1 as [|a s1 IH]; intros [|b s2] [|c s3]; simpl;
    try done.
  destruct (Ascii.compare a b) eqn:Hab; try done.
  - apply Ascii.compare_eq_iff in Hab as ->.
    destruct (Ascii.compare b c); try done. apply IH.
  - destruct (Ascii.compare b c) eqn:Hbc; try done.
    + apply Ascii.compare_eq_iff in Hbc as <-. by rewrite Hab.
    + by rewrite (ascii_compare_lt_trans a b c Hab Hbc).
Qed.

Lemma string_leb_trans (s1 s2 s3 : string) :
  String.leb s1 s2 = true → String.leb s2 s3 = true → String.leb s1 s3 = true.
Proof.
  unfold String.leb.
  destruct (String.compare s1 s2) eqn:H12; try done; intros _.
  - by apply String.compare_eq_iff in H12 as ->.
  - destruct (String.compare s2 s3) eqn:H23; try done; intros _.
    + by apply String.compare_eq_iff in H23 as <-; rewrite H12.
    + by rewrite (string_compare_lt_trans s1 s2 s3 H12 H23).
Qed.

Lemma insert_by_path_perm (f : string * chunk) (l : list (string * chunk)) :
  insert_by_path f l ≡ₚ f :: l.
Proof.
  induction l as [|g l IH]; simpl; [done|].
  destruct (String.leb f.1 g.1); [done|].
  rewrite IH. apply Permutation_swap.
Qed.

Lemma sorted_perm (l : list (string * chunk)) : sorted l ≡ₚ l.
Proof.
  induction l as [|f l IH]; simpl; [done|].
  by rewrite insert_by_path_perm, IH.
Qed.

Lemma insert_by_path_sorted (f : string * chunk) (l : list (string * chunk)) :
  StronglySorted by_path l → StronglySorted by_path (insert_by_path f l).
Proof.
  induction 1 as [|g l Hl IH Hg]; simpl.
  - by repeat constructor.
  - destruct (String.leb f.1 g.1) eqn:Hfg.
    + constructor; [by constructor|]. constructor; [done|].
      eapply Forall_impl; [exact Hg|]. intros h Hgh.
      by apply (string_leb_trans _ g.1).
    + constructor; [done|].
      rewrite insert_by_path_perm. constructor; [|done].
      destruct (String.leb_total f.1 g.1) as [Hle|Hle]; [congruence|done].
Qed.

Lemma sorted_sorted (l : list (string * chunk)) :
  StronglySorted by_path (sorted l).
Proof.
  induction l as [|f l IH]; simpl; [constructor|].
  by apply insert_by_path_sorted.
Qed.

(** The files of distinct paths are sorted the same way in whatever order
    they come. *)
Lemma sorted_unique (l1 l2 : list (string * chunk)) :
  NoDup l1.*1 → l1 ≡ₚ l2 → sorted l1 = sorted l2.
Proof.
  intros Hnd Hperm.
  apply (StronglySorted_unique_strong by_path);
    [|apply sorted_sorted..|by rewrite !sorted_perm].
  intros x y Hx Hy Hxy Hyx.
  rewrite sorted_perm in Hx. rewrite sorted_perm, <- Hperm in Hy.
  assert (x.1 = y.1) as Hpath by by apply String.leb_antisym.
  apply list_elem_of_lookup in Hx as [i Hi], Hy as [j Hj].
  assert (i = j) as ->.
  { apply (NoDup_lookup l1.*1 i j x.1); [done|..];
      rewrite list_lookup_fmap; [by rewrite Hi|by rewrite Hj, Hpath]. }
  congruence.
Qed.

(** X8. The files of an episode are loaded in ascending order of their
    paths: whatever order [glob] yields them in, as long as the paths are
    distinct (as the files of one directory are), the episode is treated
    the same way, and so is the whole run. *)
Theorem glob_order_is_immaterial
    (files files' : list (string * chunk)) (xml : option string)
    (old : option h5file) (pre : list (string * ep_dir)) (name : string)
    (post : list (string * ep_dir))
    (env_info version : string) (now : datetime) :
  NoDup files.*1 →
  files ≡ₚ files' →
  let ep := {| state_files := files; model_xml := xml |} in
  let ep' := {| state_files := files'; model_xml := xml |} in
  StronglySorted by_path (sorted files) ∧
  chunks_of ep = chunks_of ep' ∧
  gather_demonstrations_as_hdf5 old (pre ++ (name, ep) :: post)
    env_info version now
  = gather_demonstrations_as_hdf5 old (pre ++ (name, ep') :: post)
      env_info version now.
Proof.
  intros Hnd Hperm ep ep'.
  assert (chunks_of ep = chunks_of ep') as Hc.
  { unfold chunks_of. simpl. by rewrite (sorted_unique files files'). }
  split; [apply sorted_sorted|]. split; [exact Hc|].
  assert (∀ p, episode ep p = episode ep' p) as Hep.
  { intros p. unfold episode, load_episode. by rewrite Hc. }
  unfold gather_demonstrations_as_hdf5.
  assert (∀ p, episodes ((name, ep) :: post) p
               = episodes ((name, ep') :: post) p) as Htail.
  { intros p. simpl. by rewrite Hep. }
  assert (∀ p, episodes (pre ++ (name, ep) :: post) p
               = episodes (pre ++ (name, ep') :: post) p) as Hall.
  { induction pre as [|[n e] pre IH]; intros p; [apply Htail|].
    simpl. destruct (episode e p) as [q [err|]]; [done|]. apply IH. }
  by rewrite Hall.
Qed.

Lemma glob_order_is_immaterial_witness :
  StronglySorted by_path (sorted two_files) ∧
  chunks_of {| state_files := two_files; model_xml := Some "<mujoco/>" |}
  = chunks_of {| state_files := reverse two_files;
                 model_xml := Some "<mujoco/>" |} ∧
  gather_demonstrations_as_hdf5 None
    ([] ++ ("ep_1", {| state_files := two_files;
                       model_xml := Some "<mujoco/>" |}) :: [])
    "{}" "1.4.0" noon
  = gather_demonstrations_as_hdf5 None
      ([] ++ ("ep_1", {| state_files := reverse two_files;
                         model_xml := Some "<mujoco/>" |}) :: [])
      "{}" "1.4.0" noon.
Proof.
  apply (glob_order_is_immaterial two_files (reverse two_files)
           (Some "<mujoco/>") None [] "ep_1" [] "{}" "1.4.0" noon).
  - apply (bool_decide_unpack _). vm_compute. exact I.
  - apply Permutation_swap.
Defined.

End GatherMore.

(** * The aggregation and the order of the listing *)

Module GatherOrder.
Import Gather GatherFacts GatherMore.

(** ** What an entry does, whatever came before it *)

Lemma episode_raises (ep : ep_dir) (p : progress) :
  (episode ep p).2 = raises ep.
Proof.
  unfold raises, episode. rewrite !load_episode_fields. simpl.
  by repeat case_match.
Qed.

Lemma fill_group_env (xml_str : string) (e e' : option string) (ep : ep_dir)
    (ss : list vec) :
  fill_group xml_str (load_episode e ep) ss
  = fill_group xml_str (load_episode e' ep) ss.
Proof. unfold fill_group. by rewrite !load_episode_fields. Qed.

Lemma episode_written (ep : ep_dir) (p : progress) :
  raises ep = None →
  let name := demo_name (num_eps p) in
  file (episode ep p).1
  = (if written ep is Some g then put_group name g (create_group name (file p))
     else file p) ∧
  num_eps (episode ep p).1
  = (if written ep is Some _ then S (num_eps p) else num_eps p).
Proof.
  intros Hr. cbv zeta. unfold raises in Hr. unfold written.
  destruct (decide (all_states ep = [])) as [Hs|Hs].
  { by rewrite (episode_stateless ep p Hs). }
  rewrite (episode_with_states ep _ Hs) in Hr.
  rewrite (episode_with_states ep p Hs). cbv zeta in *.
  destruct (decide (length (removelast (all_states ep)) = length (all_actions ep)));
    [|done].
  destruct (model_xml ep) as [xml_str|]; [|done]. simpl.
  split; [|done]. f_equal. apply fill_group_env.
Qed.

(** ** The loop, when no entry raises *)

Lemma episodes_raise (eps : list (string * ep_dir)) (p : progress) :
  (episodes eps p).2 = None ↔ Forall (λ e, raises e.2 = None) eps.
Proof.
  revert p. induction eps as [|[n ep] eps IH]; intros p; simpl.
  { split; [by constructor|done]. }
  rewrite Forall_cons. simpl. rewrite <- (episode_raises ep p).
  destruct (episode ep p) as [q [e|]]; simpl.
  - split; [done|]. by intros [? _].
  - rewrite IH. tauto.
Qed.

(** The groups come in the order of the listing, numbered from the count
    the loop starts with. *)
Lemma episodes_written (eps : list (string * ep_dir)) (p : progress)
    (gs : list group) :
  Forall (λ e, raises e.2 = None) eps →
  num_eps p = length gs →
  (∀ i, data_groups (file p) !! demo_name i = gs !! i) →
  num_eps (episodes eps p).1 = length (gs ++ all_written eps) ∧
  ∀ i, data_groups (file (episodes eps p).1) !! demo_name i
       = (gs ++ all_written eps) !! i.
Proof.
  unfold all_written. intros Heps. revert p gs.
  induction Heps as [|[n ep] eps Hep Heps IH]; intros p gs Hn Hgs; simpl.
  { by rewrite app_nil_r. }
  simpl in Hep.
  destruct (episode_written ep p Hep) as [Hf Hc].
  pose proof (episode_raises ep p) as Hr. rewrite Hep in Hr.
  destruct (episode ep p) as [q e]; simpl in *. subst e.
  destruct (written ep) as [g|]; simpl.
  - rewrite (cons_middle g), app_assoc.
    apply IH.
    + rewrite Hc, length_app. simpl. lia.
    + intros j. rewrite Hf. simpl. rewrite insert_insert_eq.
      destruct (decide (j = num_eps p)) as [->|Hj].
      * rewrite lookup_insert_eq, Hn. by rewrite list_lookup_middle.
      * rewrite lookup_insert_ne by (by intros ?%demo_name_inj).
        rewrite Hgs.
        destruct (decide (j < length gs)%nat) as [Hlt|Hge].
        -- by rewrite lookup_app_l.
        -- rewrite !lookup_ge_None_2; [done|..].
           ++ rewrite length_app. simpl. lia.
           ++ lia.
  - apply IH; by rewrite ?Hc, ?Hf.
Qed.

Lemma all_chunks_nil (eps : list (string * ep_dir)) :
  all_chunks eps = [] ↔ Forall (λ e, chunks_of e.2 = []) eps.
Proof.
  induction eps as [|[n ep] eps IH]; [by split; [constructor|]|].
  rewrite all_chunks_cons, Forall_cons, <- IH. simpl. split.
  - by intros [? ?]%app_eq_nil.
  - by intros [-> ->].
Qed.

(** A run raises nothing exactly when no entry does and some chunk file is
    loaded; neither depends on the order of the listing. *)
Lemma gather_completes (old : option h5file) (directory : list (string * ep_dir))
    (env_info version : string) (now : datetime) :
  (gather_demonstrations_as_hdf5 old directory env_info version now).2 = None
  ↔ Forall (λ e, raises e.2 = None) directory
    ∧ ¬ Forall (λ e, chunks_of e.2 = []) directory.
Proof.
  rewrite <- all_chunks_nil, <- (episodes_raise directory (start old)).
  unfold gather_demonstrations_as_hdf5.
  destruct (episodes directory (start old)) as [p [e|]] eqn:Hrun; simpl.
  { split; [done|]. by intros [? _]. }
  rewrite write_metadata_error, (episodes_last_env _ _ _ Hrun). simpl.
  destruct (last (all_chunks directory)) as [c|] eqn:Hlast.
  - split; [|done]. intros _. split; [done|].
    intros Hnil. by rewrite Hnil in Hlast.
  - apply last_None in Hlast. split; [done|]. by intros [_ ?].
Qed.

(** What a run that raises nothing leaves, but for the clock and [env]. *)
Lemma gather_completed (old : option h5file) (directory : list (string * ep_dir))
    (env_info version : string) (now : datetime) :
  let out := gather_demonstrations_as_hdf5 old directory env_info version now in
  out.2 = None →
  (∀ i, data_groups out.1 !! demo_name i = all_written directory !! i) ∧
  dom (data_groups out.1) = demo_names (length (all_written directory)) ∧
  delete "env" (data_attrs (undated out.1))
  = <["env_info" := PyStr env_info]>
      (<["repository_version" := PyStr version]> ∅).
Proof.
  intros out Hnone. subst out.
  pose proof (proj1 (gather_completes old directory env_info version now) Hnone)
    as [Hraise _].
  destruct (episodes_written directory (start old) [] Hraise eq_refl)
    as [Hn Hgs]; [done|].
  simpl in Hn, Hgs.
  destruct (episodes_numbered directory (start old)) as (Hnum & _ & _); [done|].
  unfold numbered in Hnum.
  split; [|split].
  - intros i. rewrite gather_groups. apply Hgs.
  - by rewrite gather_groups, Hnum, Hn.
  - revert Hnone. unfold gather_demonstrations_as_hdf5.
    pose proof (episodes_attrs directory (start old)) as Ha.
    destruct (episodes directory (start old)) as [p [e|]]; [done|].
    simpl in Ha. unfold undated, write_metadata, set_attr. rewrite Ha.
    destruct (last_env p) as [name|]; [|done]. simpl. intros _.
    repeat first [rewrite delete_insert_eq | rewrite delete_insert_ne by done].
    by rewrite !delete_empty.
Qed.

(** ** Running twice *)

(** C8, refuted as stated: line 180 takes the entries in the order
    [os.listdir] hands them out, which is any order.  The same two episodes
    listed one way and the other: both runs complete, the [env] attribute is
    ["Lift"] in the one and ["Stack"] in the other, and [demo_0] is not the
    same episode; the files differ in more than the date and the time. *)
Lemma listing_order_changes_output :
  let first := gather_demonstrations_as_hdf5 None two_episodes
                 "{}" "1.4.0" noon in
  let second := gather_demonstrations_as_hdf5 None (reverse two_episodes)
                  "{}" "1.4.0" noon in
  two_episodes ≡ₚ reverse two_episodes ∧
  first.2 = None ∧ second.2 = None ∧
  data_attrs first.1 !! "env" = Some (PyStr "Lift") ∧
  data_attrs second.1 !! "env" = Some (PyStr "Stack") ∧
  data_groups first.1 !! "demo_0" ≠ data_groups second.1 !! "demo_0" ∧
  undated first.1 ≠ undated second.1.
Proof.
  intros first second.
  assert (data_attrs first.1 !! "env" = Some (PyStr "Lift")) as H1
    by (vm_compute; reflexivity).
  assert (data_attrs second.1 !! "env" = Some (PyStr "Stack")) as H2
    by (vm_compute; reflexivity).
  split; [apply Permutation_swap|].
  split; [reflexivity|]. split; [reflexivity|].
  split; [exact H1|]. split; [exact H2|]. split.
  - assert (∃ g, data_groups first.1 !! "demo_0" = Some g
                 ∧ datasets g !! "actions"
                   = Some (Vectors [zero_action; zero_action]))
      as (g1 & -> & Ha1) by (eexists; split; vm_compute; reflexivity).
    assert (∃ g, data_groups second.1 !! "demo_0" = Some g
                 ∧ datasets g !! "actions" = Some (Vectors [zero_action]))
      as (g2 & -> & Ha2) by (eexists; split; vm_compute; reflexivity).
    intros [= ->]. rewrite Ha1 in Ha2. discriminate Ha2.
  - intros Heq.
    assert (delete "date" (delete "time" (data_attrs first.1)) !! "env"
            = delete "date" (delete "time" (data_attrs second.1)) !! "env")
      as Henv.
    { change (data_attrs (undated first.1) !! "env"
              = data_attrs (undated second.1) !! "env"). by rewrite Heq. }
    rewrite !lookup_delete_ne in Henv by done.
    rewrite H1, H2 in Henv. discriminate Henv.
Qed.

(** C8, as the code has it.  Two runs over the same entries with the same
    [env_info] and version, whatever was at the output path before each
    (the file of the first run, say) and whatever the clock says at each.
    When [os.listdir] lists the entries in the same order both times, the
    runs end the same way and leave files that agree in every group and in
    every attribute but [date] and [time].  When the order differs, the
    runs still both complete or both raise; and when they complete, each
    file holds as [demo_0], [demo_1], ... the groups of its run's entries
    that have states, in the order of its listing, and no other group, so
    that the groups of the one file are those of the other under other
    names; and the attributes agree but for [date], [time] and [env]. *)
Theorem rerun_agrees_up_to_listing_order
    (old old' : option h5file) (directory directory' : list (string * ep_dir))
    (env_info version : string) (now now' : datetime) :
  directory ≡ₚ directory' →
  let first := gather_demonstrations_as_hdf5 old directory env_info version now in
  let second := gather_demonstrations_as_hdf5 old' directory' env_info version now' in
  (directory = directory' →
     first.2 = second.2 ∧ undated first.1 = undated second.1) ∧
  (first.2 = None ↔ second.2 = None) ∧
  (first.2 = None →
     all_written directory ≡ₚ all_written directory' ∧
     (∀ i, data_groups first.1 !! demo_name i = all_written directory !! i) ∧
     (∀ i, data_groups second.1 !! demo_name i = all_written directory' !! i) ∧
     dom (data_groups first.1) = demo_names (length (all_written directory)) ∧
     dom (data_groups second.1) = demo_names (length (all_written directory')) ∧
     delete "env" (data_attrs (undated first.1))
     = delete "env" (data_attrs (undated second.1))).
Proof.
  intros Hperm. cbv zeta.
  assert ((gather_demonstrations_as_hdf5 old directory env_info version now).2
          = None
          ↔ (gather_demonstrations_as_hdf5 old' directory' env_info version
               now').2 = None) as Hboth.
  { rewrite !gather_completes. by rewrite Hperm. }
  split; [|split; [exact Hboth|]].
  - intros <-.
    unfold gather_demonstrations_as_hdf5, start, create.
    destruct (episodes directory _) as [p [e|]]; simpl; [done|].
    unfold undated, write_metadata, set_attr.
    destruct (last_env p) as [name|]; simpl; (split; [done|]); f_equal.
    all: repeat first [rewrite delete_insert_eq | rewrite delete_insert_ne by done].
    all: reflexivity.
  - intros H1. pose proof (proj1 Hboth H1) as H2.
    assert (all_written directory ≡ₚ all_written directory') as Hw.
    { unfold all_written. by rewrite Hperm. }
    destruct (gather_completed old directory env_info version now H1)
      as (Hg1 & Hd1 & Ha1).
    destruct (gather_completed old' directory' env_info version now' H2)
      as (Hg2 & Hd2 & Ha2).
    split; [exact Hw|]. split; [exact Hg1|]. split; [exact Hg2|].
    split; [exact Hd1|]. split; [exact Hd2|]. by rewrite Ha1, Ha2.
Qed.

Lemma rerun_agrees_up_to_listing_order_witness :
  (two_episodes = reverse two_episodes →
     (gather_demonstrations_as_hdf5 None two_episodes "{}" "1.4.0" noon).2
     = (gather_demonstrations_as_hdf5 None (reverse two_episodes)
          "{}" "1.4.0" noon).2 ∧
     undated
       (gather_demonstrations_as_hdf5 None two_episodes "{}" "1.4.0" noon).1
     = undated
         (gather_demonstrations_as_hdf5 None (reverse two_episodes)
            "{}" "1.4.0" noon).1) ∧
  ((gather_demonstrations_as_hdf5 None two_episodes "{}" "1.4.0" noon).2 = None
   ↔ (gather_demonstrations_as_hdf5 None (reverse two_episodes)
        "{}" "1.4.0" noon).2 = None) ∧
  ((gather_demonstrations_as_hdf5 None two_episodes "{}" "1.4.0" noon).2 = None →
     all_written two_episodes ≡ₚ all_written (reverse two_episodes) ∧
     (∀ i,
        data_groups
          (gather_demonstrations_as_hdf5 None two_episodes "{}" "1.4.0" noon).1
          !! demo_name i = all_written two_episodes !! i) ∧
     (∀ i,
        data_groups
          (gather_demonstrations_as_hdf5 None (reverse two_episodes)
             "{}" "1.4.0" noon).1
          !! demo_name i = all_written (reverse two_episodes) !! i) ∧
     dom (data_groups
            (gather_demonstrations_as_hdf5 None two_episodes
               "{}" "1.4.0" noon).1)
     = demo_names (length (all_written two_episodes)) ∧
     dom (data_groups
            (gather_demonstrations_as_hdf5 None (reverse two_episodes)
               "{}" "1.4.0" noon).1)
     = demo_names (length (all_written (reverse two_episodes))) ∧
     delete "env"
       (data_attrs
          (undated
             (gather_demonstrations_as_hdf5 None two_episodes
                "{}" "1.4.0" noon).1))
     = delete "env"
         (data_attrs
            (undated
               (gather_demonstrations_as_hdf5 None (reverse two_episodes)
                  "{}" "1.4.0" noon).1))).
Proof.
  apply (rerun_agrees_up_to_listing_order None None two_episodes
           (reverse two_episodes) "{}" "1.4.0" noon noon).
  apply Permutation_swap.
Defined.

(** The same listing at another time, with the first run's file at the
    output path: the files differ, and only in the date and the time. *)
Example rerun_same_listing :
  let first := gather_demonstrations_as_hdf5 None two_episodes
                 "{}" "1.4.0" noon in
  let second := gather_demonstrations_as_hdf5 (Some first.1) two_episodes
                  "{}" "1.4.0" midnight in
  data_attrs first.1 !! "date" ≠ data_attrs second.1 !! "date" ∧
  undated first.1 = undated second.1 ∧
  first.2 = second.2.
Proof.
  intros first second.
  assert (data_attrs first.1 !! "date" = Some (PyStr "11-4-2026")) as ->
    by (vm_compute; reflexivity).
  assert (data_attrs second.1 !! "date" = Some (PyStr "11-5-2026")) as ->
    by (vm_compute; reflexivity).
  split; [discriminate|]. split; vm_compute; reflexivity.
Qed.

End GatherOrder.

(** * More on the two threads *)

Module ThreadMore.
Import Teleop Tactics ThreadFacts.

(** As [run_ind], with the run that reaches the state at hand. *)
Lemma run_ind_strong (cl : call) (P : list event → state → Prop) :
  P [] (init cl) →
  (∀ sched es s c e s',
      exec sched (init cl) = Some (es, s) → P es s →
      step c s = Some (e, s') → P (es ++ [e]) s') →
  ∀ sched es s, exec sched (init cl) = Some (es, s) → P es s.
Proof.
  intros Hinit Hstep sched.
  induction sched as [|c sched IH] using rev_ind; intros es s.
  - by intros [= <- <-].
  - intros (es0 & s0 & e & Hrun & Hc & ->)%exec_snoc. eauto.
Qed.

Lemma exec_app_Some (a b : list choice) (s s1 s2 : state) (es1 es2 : list event) :
  exec a s = Some (es1, s1) → exec b s1 = Some (es2, s2) →
  exec (a ++ b) s = Some (es1 ++ es2, s2).
Proof. intros Ha Hb. by rewrite exec_app, Ha, Hb. Qed.

(** ** Mutual exclusion *)

(** X9. In every state of every run the two threads are not both inside
    their [with self.lock] blocks, and the lock is held by the controller
    exactly while it is inside [set_action]'s block, by the stepper exactly
    while it is inside [run_step]'s, and by no one otherwise. *)
Theorem mutual_exclusion
    (cl : call) (sched : list choice) (es : list event) (s : state) :
  exec sched (init cl) = Some (es, s) →
  ¬ (ctl_in_with (ctl s) = true ∧ stp_in_with (stp s) = true) ∧
  (lock s = Some Controller ↔ ctl_in_with (ctl s) = true) ∧
  (lock s = Some Stepper ↔ stp_in_with (stp s) = true) ∧
  (lock s = None ↔
     ctl_in_with (ctl s) = false ∧ stp_in_with (stp s) = false).
Proof.
  intros [Hl Hx]%lock_owner_run. rewrite Hl.
  destruct (ctl_in_with (ctl s)), (stp_in_with (stp s));
    try specialize (Hx eq_refl); intuition congruence.
Qed.

Lemma mutual_exclusion_witness :
  ¬ (ctl_in_with (ctl (state_of race)) = true
     ∧ stp_in_with (stp (state_of race)) = true) ∧
  (lock (state_of race) = Some Controller
   ↔ ctl_in_with (ctl (state_of race)) = true) ∧
  (lock (state_of race) = Some Stepper
   ↔ stp_in_with (stp (state_of race)) = true) ∧
  (lock (state_of race) = None ↔
     ctl_in_with (ctl (state_of race)) = false
     ∧ stp_in_with (stp (state_of race)) = false).
Proof.
  apply (mutual_exclusion solo race (trace_of race) (state_of race)).
  vm_compute. reflexivity.
Defined.

(** ** The latch stays in its range *)

(** X10. In every state of every run [task_completion_hold_count] is -1 or
    between 0 and 10. *)
Theorem hold_stays_in_range
    (cl : call) (sched : list choice) (es : list event) (s : state) :
  exec sched (init cl) = Some (es, s) → hold_range (hold s).
Proof.
  apply (run_ind cl (λ _ s, hold_range (hold s))); [by left|]. clear.
  unfold hold_range. intros _ s c e s' Hs H.
  step_cases H; simpl in *; try done.
  all: repeat case_match; simplify_eq; simpl in *; try done.
  all: unfold latch; repeat case_match; lia.
Qed.

Lemma hold_stays_in_range_witness : hold_range (hold (state_of race)).
Proof.
  apply (hold_stays_in_range solo race (trace_of race) (state_of race)).
  vm_compute. reflexivity.
Defined.

(** ** The tick counter *)

Lemma ticks_bounds_run
    {cl : call} (sched : list choice) (es : list event) (s : state) :
  exec sched (init cl) = Some (es, s) →
  0 ≤ ticks s ∧ ∀ v, stp s = SStore v → ticks s ≤ v.
Proof.
  apply (run_ind cl (λ _ s, 0 ≤ ticks s ∧ ∀ v, stp s = SStore v → ticks s ≤ v)).
  { done. }
  clear. intros _ s c e s' [Hs Hv] H.
  step_cases H; simpl in *; try done.
  all: repeat case_match; simplify_eq; simpl in *.
  all: try (split; [lia|]; intros; simplify_eq; lia).
  all: try (specialize (Hv _ eq_refl); split; [lia|]; intros; simplify_eq; lia).
  all: split; [lia|]; intros w Hw; specialize (Hv w Hw); lia.
Qed.

(** X11. The tick counter is never negative, and the only step that ever
    lowers it is the controller's reset of line 130: every step of the
    stepper leaves it as it is or raises it. *)
Theorem ticks_only_lowered_by_reset (cl : call)
    (sched : list choice) (es : list event) (s s' : state)
    (c : choice) (e : event) :
  exec sched (init cl) = Some (es, s) →
  step c s = Some (e, s') →
  0 ≤ ticks s ∧ 0 ≤ ticks s' ∧
  (ticks s' < ticks s → e = WriteTicks Controller 0) ∧
  (actor e = Stepper → ticks s ≤ ticks s').
Proof.
  intros Hrun H.
  destruct (ticks_bounds_run sched es s Hrun) as [Hs Hv].
  assert (exec (sched ++ [c]) (init cl) = Some (es ++ [e], s')) as Hrun'
    by by rewrite exec_app, Hrun; simpl; rewrite H.
  destruct (ticks_bounds_run _ _ _ Hrun') as [Hs' _].
  split; [done|]. split; [done|]. clear Hrun Hrun'.
  step_cases H; simpl in *.
  all: repeat case_match; simplify_eq; simpl in *.
  all: try (split; intros; [lia|lia]).
  all: try (specialize (Hv _ eq_refl); split; intros; lia).
  all: by split.
Qed.

Lemma ticks_only_lowered_by_reset_witness :
  0 ≤ ticks (state_of first_step) ∧
  0 ≤ ticks (stp_to SLoad (state_of first_step)) ∧
  (ticks (stp_to SLoad (state_of first_step)) < ticks (state_of first_step) →
   EnvStep zeros = WriteTicks Controller 0) ∧
  (actor (EnvStep zeros) = Stepper →
   ticks (state_of first_step) ≤ ticks (stp_to SLoad (state_of first_step))).
Proof.
  apply (ticks_only_lowered_by_reset solo first_step (trace_of first_step)
           (state_of first_step) (stp_to SLoad (state_of first_step))
           RunStepper (EnvStep zeros)).
  - vm_compute. reflexivity.
  - vm_compute. reflexivity.
Defined.

(** ** After the stop signal *)

Lemma existsb_snoc (f : event → bool) (es : list event) (e : event) :
  existsb f (es ++ [e]) = existsb f es || f e.
Proof. rewrite existsb_app. simpl. by rewrite orb_false_r. Qed.

Lemma steps_after_stop_snoc (es : list event) (e : event) :
  steps_after_stop (es ++ [e])
  = if existsb is_stop es then steps_after_stop es ++ env_steps [e] else [].
Proof.
  induction es as [|e0 es IH]; simpl.
  - by destruct e.
  - destruct e0; simpl; try exact IH.
    unfold env_steps. by rewrite omap_app.
Qed.

Lemma stopping_run
    {cl : call} (sched : list choice) (es : list event) (s : state) :
  exec sched (init cl) = Some (es, s) → stopping es s.
Proof.
  apply (run_ind cl stopping); [done|]. clear.
  unfold stopping. intros es s c e s' Hs H.
  rewrite existsb_snoc, steps_after_stop_snoc.
  destruct (existsb is_stop es); simpl.
  - destruct Hs as [Hstop Hn].
    step_cases H; simpl in *; try done.
    all: repeat case_match; simplify_eq; simpl in *.
    all: rewrite ?app_nil_r, ?length_app; simpl; try done.
    all: split; [done|lia].
  - step_cases H; simpl in *; try done.
    all: repeat case_match; simplify_eq; simpl in *; try done.
    all: split; [done|lia].
Qed.

(** X12. After [stop_event.set()] the simulation is stepped at most once
    more: the stepper finishes the iteration it is in, at most, and leaves
    at line 49. *)
Theorem at_most_one_step_after_stop (cl : call)
    (sched : list choice) (es : list event) (s : state) :
  exec sched (init cl) = Some (es, s) →
  (length (steps_after_stop es) ≤ 1)%nat ∧
  (existsb is_stop es = true → stop_event s = true).
Proof.
  intros Hs%stopping_run. unfold stopping in Hs.
  destruct (existsb is_stop es).
  - destruct Hs as [Hstop Hn]. split; [lia|done].
  - rewrite Hs. simpl. split; [lia|done].
Qed.

Lemma at_most_one_step_after_stop_witness :
  (length (steps_after_stop (trace_of stop_in_mid_step)) ≤ 1)%nat ∧
  (existsb is_stop (trace_of stop_in_mid_step) = true →
   stop_event (state_of stop_in_mid_step) = true).
Proof.
  apply (at_most_one_step_after_stop solo stop_in_mid_step
           (trace_of stop_in_mid_step) (state_of stop_in_mid_step)).
  vm_compute. reflexivity.
Defined.

Example one_step_after_stop :
  steps_after_stop (trace_of stop_in_mid_step)
  = [replicate 7 0%float] ∧
  stp (state_of stop_in_mid_step) = SExited.
Proof. vm_compute. split; reflexivity. Qed.

(** ** The budget *)

Lemma budget_spent_run
    {cl : call} (sched : list choice) (es : list event) (s : state) :
  exec sched (init cl) = Some (es, s) → budget_spent es s.
Proof.
  apply (run_ind_strong cl budget_spent).
  { split; [by constructor|]. by intros [|]. }
  clear. unfold budget_spent. intros sched es s c e s' Hrun [Hno Hsp] H.
  pose proof (counted_run sched es s Hrun) as Hcount. unfold counted in Hcount.
  rewrite existsb_snoc, env_steps_snoc, Forall_app, Forall_singleton.
  assert (∀ n : nat, max_steps ≤ Z.of_nat n → max_steps ≤ Z.of_nat (S n))
    as Hmore by (intros; lia).
  step_cases H; simpl in *.
  all: repeat case_match; simplify_eq; simpl in *.
  all: rewrite ?length_app, ?orb_false_r, ?orb_true_r; simpl.
  all: try (split; [by auto|by intuition (try discriminate; auto)]).
  all: try (split; [by auto|]; intros _;
            destruct (Hcount (Hno eq_refl)) as [Hn _];
            repeat case_match; lia).
  all: try (split; [done|]; intros _; apply Hsp; by left).
  all: split; [by auto|]; rewrite Nat.add_1_r; intros Hz; apply Hmore, Hsp;
    destruct Hz as [Hz|Hz]; auto.
Qed.

(** X13. The controller leaves the loop by the budget (lines 129-131) only
    after the simulation was stepped [max_steps] = 500 times or more:
    wherever the counter is reset in a trace, at least 500 steps are in
    the trace. *)
Theorem timeout_needs_full_budget (cl : call)
    (sched : list choice) (es : list event) (s : state) :
  exec sched (init cl) = Some (es, s) →
  existsb is_reset es = true →
  (500 ≤ length (env_steps es))%nat.
Proof.
  intros [_ Hsp]%budget_spent_run Hreset.
  specialize (Hsp (or_intror Hreset)). unfold max_steps, freq in Hsp. lia.
Qed.

Lemma timeout_needs_full_budget_witness :
  (500 ≤ length (env_steps (trace_of lost_reset)))%nat.
Proof.
  apply (timeout_needs_full_budget solo lost_reset (trace_of lost_reset)
           (state_of lost_reset)).
  - vm_compute. reflexivity.
  - vm_compute. reflexivity.
Defined.

(** ** An exception the handler does not catch *)

Lemma args_run {cl : call} (sched : list choice) (es : list event) (s : state) :
  exec sched (init cl) = Some (es, s) → args s = cl.
Proof.
  apply (run_ind cl (λ _ s, args s = cl)); [done|]. clear.
  intros _ s c e s' Hs H.
  step_cases H; simpl in *; try done.
  all: by repeat case_match.
Qed.

Lemma unstopped_run
    {cl : call} (sched : list choice) (es : list event) (s : state) :
  exec sched (init cl) = Some (es, s) → unstopped s.
Proof.
  apply (run_ind cl (λ _ s, unstopped s)); [done|]. clear.
  unfold unstopped. intros _ s c e s' [Hstop Hexit] H.
  step_cases H; simpl in *.
  all: repeat case_match; simplify_eq; simpl in *.
  all: split; try done; eauto.
  all: try (intros Hs; by destruct (Hstop Hs) as (? & ? & ? & ?)).
Qed.

(** Once the controller is gone with the stop event not set, nothing ever
    sets it: only the stepper moves, and it stays in its loop. *)
Lemma crashed_for_good (more : list choice) (s s' : state) (es : list event) :
  ctl s = CCrashed → stop_event s = false → stp s ≠ SExited →
  exec more s = Some (es, s') →
  ctl s' = CCrashed ∧ stop_event s' = false ∧ stp s' ≠ SExited ∧
  Forall (λ e, actor e = Stepper) es.
Proof.
  revert s es. induction more as [|c more IH]; intros s es Hpc Hev Hst; simpl.
  - by intros [= <- <-].
  - destruct (step c s) as [[e s1]|] eqn:H; [|done].
    destruct (exec more s1) as [[es1 s2]|] eqn:Hmore; [|done].
    intros [= <- <-].
    assert (ctl s1 = CCrashed ∧ stop_event s1 = false ∧ stp s1 ≠ SExited
            ∧ actor e = Stepper) as (Hpc1 & Hev1 & Hst1 & He).
    { clear IH Hmore. step_cases H; simpl in *; try done.
      all: by repeat case_match; simplify_eq. }
    destruct (IH s1 es1 Hpc1 Hev1 Hst1 Hmore) as (? & ? & ? & ?).
    repeat split; try done. by constructor.
Qed.

(** X14. An exception raised in the loop that is not a [KeyboardInterrupt]
    passes the handler of line 132.  At the head of the loop in any run,
    when line 96 finds no robot (an [IndexError]) or [input2action] returns
    an action of fewer than six components (lines 104-105 raise), the
    controller's next step ends the call there; and whatever is run after
    that, the controller does nothing more: the stop event is never set,
    the join and [env.close()] are never reached, and the stepper never
    leaves its loop. *)
Theorem uncaught_error_leaves_stepper_running
    (cl : call) (sched : list choice) (es : list event) (s : state)
    (a : list float) :
  exec sched (init cl) = Some (es, s) →
  ctl s = CInput →
  robot_of cl = None ∨ (length a < 6)%nat →
  ∃ (e : event) (s1 : state),
    step (RunController
            (if robot_of cl is None then Plain else FromDevice (Some a))) s
    = Some (e, s1) ∧
    e = (if robot_of cl is None then NoRobot else Input (Some a)) ∧
    ctl s1 = CCrashed ∧
    ∀ (more : list choice) (es' : list event) (s' : state),
      exec more s1 = Some (es', s') →
      ctl s' = CCrashed ∧ stop_event s' = false ∧ stp s' ≠ SExited ∧
      Forall (λ e, actor e = Stepper) es'.
Proof.
  intros Hrun Hpc Hbad.
  pose proof (args_run sched es s Hrun) as Hargs.
  destruct (unstopped_run sched es s Hrun) as [Hstop Hexit].
  assert (stop_event s = false) as Hev.
  { destruct (stop_event s); [|done].
    destruct (Hstop eq_refl) as (? & ? & ? & Hd). by rewrite Hpc in Hd. }
  assert (stp s ≠ SExited) as Hst.
  { intros Hx. specialize (Hexit Hx). congruence. }
  assert (∃ e, step (RunController
                       (if robot_of cl is None then Plain
                        else FromDevice (Some a))) s
               = Some (e, ctl_to CCrashed s)
               ∧ e = (if robot_of cl is None then NoRobot else Input (Some a)))
    as (e & Hstep & He).
  { unfold step, ctl_step. rewrite Hpc, Hargs.
    destruct (robot_of cl) as [r|] eqn:Hr.
    - destruct Hbad as [|Hlen]; [done|].
      rewrite (LoopFacts.clamp_deadzone_None a Hlen). by eexists.
    - by eexists. }
  exists e, (ctl_to CCrashed s). split; [exact Hstep|]. split; [exact He|].
  split; [done|].
  intros more es' s'. by apply crashed_for_good.
Qed.

Lemma uncaught_error_leaves_stepper_running_witness :
  ∃ (e : event) (s1 : state),
    step (RunController
            (if robot_of left_handed is None then Plain
             else FromDevice (Some zeros))) (init left_handed)
    = Some (e, s1) ∧
    e = (if robot_of left_handed is None then NoRobot else Input (Some zeros)) ∧
    ctl s1 = CCrashed ∧
    ∀ (more : list choice) (es' : list event) (s' : state),
      exec more s1 = Some (es', s') →
      ctl s' = CCrashed ∧ stop_event s' = false ∧ stp s' ≠ SExited ∧
      Forall (λ e, actor e = Stepper) es'.
Proof.
  apply (uncaught_error_leaves_stepper_running left_handed [] []
           (init left_handed) zeros).
  - reflexivity.
  - reflexivity.
  - left. reflexivity.
Defined.

(** The same with the script's one robot and an action of four components. *)
Example short_action_crashes :
  step (RunController (FromDevice (Some short_action))) (init solo)
  = Some (Input (Some short_action), ctl_to CCrashed (init solo)) ∧
  fst <$> step (RunController Plain) (init left_handed) = Some NoRobot.
Proof. split; vm_compute; reflexivity. Qed.

(** ** What the simulation is stepped with *)

Lemma all_clamped_run
    {cl : call} (sched : list choice) (es : list event) (s : state) :
  exec sched (init cl) = Some (es, s) → all_clamped es s.
Proof.
  apply (run_ind_strong cl all_clamped).
  { intros a' [?|Hin]; [done|]. by apply elem_of_nil in Hin. }
  clear. unfold all_clamped. intros sched es s c e s' Hrun Hs H.
  pose proof (clamped_in_hand_run sched es s Hrun) as Hhand.
  unfold clamped_in_hand in Hhand.
  assert (∀ a', slot s = Some a' ∨ a' ∈ env_steps es →
            ∃ a, Input (Some a) ∈ es ++ [e] ∧ clamp_deadzone a = Some a') as Hs'.
  { intros b (a & Hin & Hc)%Hs. exists a. split; [|done].
    apply elem_of_app. by left. }
  assert (∀ a', ctl s = CAcquire a' ∨ ctl s = CAssign a' →
            ∃ a, Input (Some a) ∈ es ++ [e] ∧ clamp_deadzone a = Some a')
    as Hhand'.
  { intros b (a & Hin & Hc)%Hhand. exists a. split; [|done].
    apply elem_of_app. by left. }
  clear Hs Hhand. rewrite env_steps_snoc.
  step_cases H; simpl in *.
  all: repeat case_match; simplify_eq; simpl in *.
  all: intros act Hact.
  all: try (by apply Hs').
  - destruct Hact as [Hact|Hact]; [by apply Hs'; left|].
    apply elem_of_app in Hact as [Hact|Hact]; [by apply Hs'; right|].
    apply list_elem_of_singleton in Hact as ->. apply Hs'. by left.
  - destruct Hact as [[= <-]|Hact]; [|by apply Hs'; right].
    apply Hhand'. by right.
Qed.

(** X15. Whatever the interleaving, every action the simulation is stepped
    with is an action that [input2action] returned, of six components or
    more, with the deadzone applied. *)
Theorem simulation_gets_clamped_actions (cl : call)
    (sched : list choice) (es : list event) (s : state) (a' : list float) :
  exec sched (init cl) = Some (es, s) →
  a' ∈ env_steps es →
  ∃ a, Input (Some a) ∈ es ∧ clamp_deadzone a = Some a' ∧ (6 ≤ length a)%nat.
Proof.
  intros Hrun Hin.
  destruct (all_clamped_run sched es s Hrun a') as (a & Ha & Hc); [by right|].
  exists a. split; [done|]. split; [done|].
  by apply LoopFacts.clamp_deadzone_length in Hc as [_ ?].
Qed.

Lemma simulation_gets_clamped_actions_witness :
  ∃ a, Input (Some a) ∈ trace_of first_step_done ∧
       clamp_deadzone a = Some zeros ∧ (6 ≤ length a)%nat.
Proof.
  apply (simulation_gets_clamped_actions solo first_step_done
           (trace_of first_step_done) (state_of first_step_done) zeros).
  - vm_compute. reflexivity.
  - apply list_elem_of_singleton. vm_compute. reflexivity.
Defined.

(** ** Before the first action *)

Lemma idle_run {cl : call} (sched : list choice) (es : list event) (s : state) :
  exec sched (init cl) = Some (es, s) → idle es s.
Proof.
  apply (run_ind cl idle); [done|]. clear.
  unfold idle. intros es s c e s' Hs H.
  rewrite last_set_snoc, env_steps_snoc.
  step_cases H; simpl in *; try done.
  all: intros Hnone; destruct (Hs Hnone) as (Hslot & Hsteps & Hticks & Hpc & Hcnt).
  all: repeat case_match; simplify_eq; simpl in *; try done.
Qed.

(** X16. Until the controller has stored its first action the stepper's
    iterations do nothing: the simulation is not stepped and the tick
    counter stays 0, however many iterations the stepper runs. *)
Theorem stepper_idles_without_action (cl : call)
    (sched : list choice) (es : list event) (s : state) :
  exec sched (init cl) = Some (es, s) →
  last_set es = None →
  env_steps es = [] ∧ ticks s = 0 ∧ slot s = None.
Proof.
  intros Hidle%idle_run Hnone. by destruct (Hidle Hnone) as (? & ? & ? & _).
Qed.

Lemma stepper_idles_without_action_witness :
  env_steps (trace_of idling) = [] ∧
  ticks (state_of idling) = 0 ∧ slot (state_of idling) = None.
Proof.
  apply (stepper_idles_without_action solo idling (trace_of idling) (state_of idling)).
  - vm_compute. reflexivity.
  - vm_compute. reflexivity.
Defined.

(** ** The call comes to its end *)

(** X17. From the moment the controller has left the loop (by the device's
    reset, the latch, the budget or a [KeyboardInterrupt]) the call can
    always be taken to its end: the stepper alone runs to its exit in at
    most eight steps, the join returns, and the controller closes the
    environment on the one path and re-raises on the other.  The join
    cannot wait for ever. *)
Theorem cleanup_always_finishes (cl : call)
    (sched : list choice) (es : list event) (s : state) :
  exec sched (init cl) = Some (es, s) →
  ctl s = CStop ∨ ctl s = XStop ∨ ctl s = CJoin ∨ ctl s = XJoin →
  ∃ (n : nat) (more : list choice) (es' : list event) (s' : state),
    (n ≤ 8)%nat ∧
    more = (if cleanup_done (ctl s) is Some (_, []) then [RunController Plain]
            else [])
           ++ replicate n RunStepper
           ++ [RunController Plain; RunController Plain] ∧
    exec more s = Some (es', s') ∧
    (ctl s = CStop ∨ ctl s = CJoin → ctl s' = CReturned) ∧
    (ctl s = XStop ∨ ctl s = XJoin → ctl s' = XRaised).
Proof.
  intros Hrun Hpc.
  assert (∃ pre es1 s1,
            pre = (if cleanup_done (ctl s) is Some (_, []) then [RunController Plain]
                   else []) ∧
            exec pre s = Some (es1, s1) ∧
            (ctl s = CStop ∨ ctl s = CJoin → ctl s1 = CJoin) ∧
            (ctl s = XStop ∨ ctl s = XJoin → ctl s1 = XJoin))
    as (pre & es1 & s1 & -> & Hpre & Hc & Hx).
  { destruct s as [pc qc lk sl tk ev hd ar]; simpl in *.
    destruct Hpc as [-> | [-> | [-> | ->]]]; simpl; eexists _, _, _;
      (split; [reflexivity|]); (split; [reflexivity|]); simpl;
      split; intros [|]; done. }
  assert (exec (sched ++ (if cleanup_done (ctl s) is Some (_, [])
                            then [RunController Plain] else [])) (init cl)
          = Some (es ++ es1, s1)) as Hrun1
    by by rewrite exec_app, Hrun, Hpre.
  assert (ctl s1 = CJoin ∨ ctl s1 = XJoin) as Hpc1
    by (destruct Hpc as [?|[?|[?|?]]]; auto).
  pose proof (lock_owner_run _ _ _ Hrun1) as Hlock.
  pose proof (step_has_action_run _ _ _ Hrun1) as Hslot.
  pose proof (stop_raised_run _ _ _ Hrun1) as Hstop.
  unfold stop_raised in Hstop.
  assert (∃ n es2 s2, (n ≤ 8)%nat ∧
            exec (replicate n RunStepper) s1 = Some (es2, s2) ∧
            stp s2 = SExited ∧ ctl s2 = ctl s1)
    as (n & es2 & s2 & Hn & Hrun2 & Hexit & Hctl).
  { assert (stop_event s1 = true) as Hev
      by (by destruct Hpc1 as [Hq|Hq]; rewrite Hq in Hstop).
    assert (ctl_in_with (ctl s1) = false) as Hw
      by (by destruct Hpc1 as [Hq|Hq]; rewrite Hq).
    clear -Hlock Hslot Hev Hw.
    unfold lock_owner, step_has_action in *.
    destruct s1 as [pc qc lk sl tk ev hd ar]; simpl in *.
    destruct Hlock as [Hl _]. rewrite Hw in Hl. subst ev.
    destruct qc; simpl in Hl; subst lk.
    - exists 1%nat. eexists _, _. split; [lia|done].
    - destruct sl; [exists 8%nat|exists 5%nat]; eexists _, _; (split; [lia|done]).
    - destruct sl; [exists 7%nat|exists 4%nat]; eexists _, _; (split; [lia|done]).
    - destruct (Hslot eq_refl) as [a ->]. exists 6%nat.
      eexists _, _. split; [lia|done].
    - exists 5%nat. eexists _, _. split; [lia|done].
    - exists 4%nat. eexists _, _. split; [lia|done].
    - exists 3%nat. eexists _, _. split; [lia|done].
    - exists 2%nat. eexists _, _. split; [lia|done].
    - exists 0%nat. eexists _, _. split; [lia|done]. }
  assert (∃ es3 s3,
            exec [RunController Plain; RunController Plain] s2 = Some (es3, s3) ∧
            (ctl s1 = CJoin → ctl s3 = CReturned) ∧
            (ctl s1 = XJoin → ctl s3 = XRaised))
    as (es3 & s3 & Hrun3 & Hc3 & Hx3).
  { destruct s2 as [pc qc lk sl tk ev hd ar]; simpl in *. subst qc.
    destruct Hpc1 as [Hq|Hq]; rewrite Hq in Hctl; subst pc; simpl;
      eexists _, _; (split; [reflexivity|]); by rewrite Hq. }
  exists n. eexists _, (es1 ++ es2 ++ es3), s3.
  split; [done|]. split; [reflexivity|]. split.
  - apply (exec_app_Some _ _ s s1 s3 es1 (es2 ++ es3)); [done|].
    by apply (exec_app_Some _ _ s1 s2 s3 es2 es3).
  - split; intros Hy; auto.
Qed.

Lemma cleanup_always_finishes_witness :
  ∃ (n : nat) (more : list choice) (es' : list event) (s' : state),
    (n ≤ 8)%nat ∧
    more = (if cleanup_done (ctl (state_of abort_to_stop)) is Some (_, [])
            then [RunController Plain] else [])
           ++ replicate n RunStepper
           ++ [RunController Plain; RunController Plain] ∧
    exec more (state_of abort_to_stop) = Some (es', s') ∧
    (ctl (state_of abort_to_stop) = CStop ∨ ctl (state_of abort_to_stop) = CJoin
     → ctl s' = CReturned) ∧
    (ctl (state_of abort_to_stop) = XStop ∨ ctl (state_of abort_to_stop) = XJoin
     → ctl s' = XRaised).
Proof.
  apply (cleanup_always_finishes solo abort_to_stop (trace_of abort_to_stop)
           (state_of abort_to_stop)).
  - vm_compute. reflexivity.
  - left. vm_compute. reflexivity.
Defined.

End ThreadMore.

(** * More on the controller's loop *)

Module LoopMore.
Import Teleop Tactics LoopFacts.

(** ** The clamp, twice *)

Lemma zero_dead_idemp (d x : float) : zero_dead d (zero_dead d x) = zero_dead d x.
Proof.
  unfold zero_dead. destruct (is_dead d x) eqn:Hx; [|by rewrite Hx].
  by destruct (is_dead d 0%float).
Qed.

Lemma zip_zero_dead_idemp (ds l : list float) :
  zip_with zero_dead ds (zip_with zero_dead ds l) = zip_with zero_dead ds l.
Proof.
  revert l. induction ds as [|d ds IH]; intros [|x l]; simpl; try done.
  by rewrite zero_dead_idemp, IH.
Qed.

(** X18. The clamp changes nothing in an action it has produced: clamping
    a second time gives the same action; and in a clamped action a
    component of the first six that lies strictly between minus and plus
    its threshold is 0. *)
Theorem clamp_deadzone_idempotent (a a' : list float) :
  clamp_deadzone a = Some a' →
  clamp_deadzone a' = Some a' ∧
  ∀ (i : nat) (d y : float),
    deadzone !! i = Some d → a' !! i = Some y →
    is_dead d y = true → y = 0%float.
Proof.
  intros Hc. destruct (clamp_deadzone_length _ _ Hc) as [Hlen H6].
  assert (a' = zip_with zero_dead deadzone (take 6 a) ++ drop 6 a) as Ha'.
  { rewrite clamp_deadzone_defined in Hc by done. congruence. }
  assert (length (zip_with zero_dead deadzone (take 6 a)) = 6%nat) as Hz.
  { rewrite length_zip_with, length_take.
    change (length deadzone) with 6%nat. lia. }
  split.
  - rewrite clamp_deadzone_defined by lia. f_equal. rewrite Ha' at 3.
    f_equal.
    + rewrite Ha', take_app_length'; [|done]. apply zip_zero_dead_idemp.
    + by rewrite Ha', drop_app_length'.
  - intros i d y Hd Hy Hdead.
    assert (i < 6)%nat as Hi by (apply lookup_lt_Some in Hd; exact Hd).
    rewrite Ha', lookup_app_l in Hy by lia.
    apply lookup_zip_with_Some in Hy as (d' & x & -> & Hd' & _).
    assert (d' = d) as -> by congruence.
    unfold zero_dead in *. destruct (is_dead d x) eqn:Hx; [done|congruence].
Qed.

Lemma clamp_deadzone_idempotent_witness :
  clamp_deadzone [0x1p-5%float; (-0x1p-5)%float; 0%float;
                  0%float; (-0x1p-2)%float; tenth; 1%float]
  = Some [0x1p-5%float; (-0x1p-5)%float; 0%float;
          0%float; (-0x1p-2)%float; tenth; 1%float] ∧
  ∀ (i : nat) (d y : float),
    deadzone !! i = Some d →
    [0x1p-5%float; (-0x1p-5)%float; 0%float;
     0%float; (-0x1p-2)%float; tenth; 1%float] !! i = Some y →
    is_dead d y = true → y = 0%float.
Proof.
  apply (clamp_deadzone_idempotent sample_action).
  vm_compute. reflexivity.
Defined.

(** ** How the loop is left *)

Lemma clamp_deadzone_None_inv (a : list float) :
  clamp_deadzone a = None → (length a < 6)%nat.
Proof.
  intros Hc. destruct (decide (6 ≤ length a)%nat) as [Hl|Hl]; [|lia].
  by rewrite (clamp_deadzone_defined a Hl) in Hc.
Qed.

(** The loop pushes one action per iteration, each the clamp of what the
    device returned in that iteration; the pushes and the evaluations of
    the latch are as many as the way it was left tells. *)
Lemma collect_loop_accounts (cl : call) (hold : Z) (ticks : list tick) :
  let r := collect_loop cl hold ticks in
  let n := length (pushed r) in
  (∀ (i : nat) (a' : list float),
      pushed r !! i = Some a' →
      ∃ t a, ticks !! i = Some t ∧ device t = Some a ∧
             clamp_deadzone a = Some a') ∧
  match ended r with
  | None => n = length ticks ∧ length (holds r) = n
  | Some Aborted =>
      length (holds r) = n ∧ ∃ t, ticks !! n = Some t ∧ device t = None
  | Some ShapeError =>
      length (holds r) = n ∧
      ∃ t a, ticks !! n = Some t ∧ device t = Some a ∧ (length a < 6)%nat
  | Some IndexError => robot_of cl = None ∧ r = stop IndexError
  | Some Completed => n = S (length (holds r))
  | Some TimedOut => n = length (holds r) ∧ (1 ≤ n)%nat
  end.
Proof.
  revert hold. induction ticks as [|t rest IH]; intros hold; [by split|].
  simpl. unfold stop, push, held.
  destruct (robot_of cl) as [rb|] eqn:Hrb; simpl; [|by split].
  destruct (device t) as [a|] eqn:Hdev; simpl; [|split; [done|by eauto]].
  destruct (clamp_deadzone a) as [a'|] eqn:Hc; simpl;
    [|split; [done|]; split; [done|];
      exists t, a; by eauto using clamp_deadzone_None_inv].
  destruct (hold =? 0); simpl.
  { split; [|done]. intros [|i] b; [|done]. intros [= <-]. by exists t, a. }
  destruct (max_steps <=? timestamps t); simpl.
  { split; [|split; [done|lia]].
    intros [|i] b; [|done]. intros [= <-]. by exists t, a. }
  destruct (IH (latch hold (check_success t))) as [Hpush Hend].
  split.
  - intros [|i] b; simpl.
    + intros [= <-]. by exists t, a.
    + apply Hpush.
  - destruct (ended (collect_loop cl (latch hold (check_success t)) rest))
      as [[| | | |]|]; simpl in *.
    + destruct Hend as [-> Ht]. by split.
    + by rewrite Hend.
    + destruct Hend as [-> ?]. split; [done|lia].
    + destruct Hend as [-> Ht]. by split.
    + by destruct Hend as [? _].
    + by destruct Hend as [-> ->].
Qed.

(** ** The robot that is not there *)

Lemma robot_of_None (cl : call) :
  robot_of cl = None ↔
  robots cl = 0%nat ∨
  (env_configuration cl ≠ "bimanual" ∧ arm cl = "left" ∧ robots cl = 1%nat).
Proof.
  unfold robot_of, active_robot.
  destruct (String.eqb_spec (env_configuration cl) "bimanual") as [Hc|Hc];
    destruct (String.eqb_spec (arm cl) "left") as [Ha|Ha];
    destruct (robots cl) as [|[|n]]; simpl;
    split; try done; try (by left); try (by right);
    intros [|(? & ? & ?)]; done.
Qed.

(** X19. Line 96 is evaluated anew in every iteration but reads nothing
    the loop changes, so its [IndexError] is raised in the first iteration
    or never.  Whatever the device and the environment would answer, a loop
    that has an iteration to run leaves on that error exactly when
    [env.robots] is empty, or the configuration is not ["bimanual"], the arm
    is ["left"] and there is one robot only; and then no action was pushed
    and [_check_success] was not asked. *)
Theorem index_error_at_first_iteration
    (cl : call) (hold : Z) (t : tick) (rest : list tick) :
  let r := collect_loop cl hold (t :: rest) in
  (ended r = Some IndexError ↔
     robots cl = 0%nat ∨
     (env_configuration cl ≠ "bimanual" ∧ arm cl = "left"
      ∧ robots cl = 1%nat)) ∧
  (ended r = Some IndexError → pushed r = [] ∧ holds r = []).
Proof.
  intros r. pose proof (collect_loop_accounts cl hold (t :: rest)) as [_ Hend].
  fold r in Hend. rewrite <- robot_of_None. split; [split|].
  - intros He. rewrite He in Hend. by destruct Hend.
  - intros Hr. subst r. simpl. by rewrite Hr.
  - intros He. rewrite He in Hend. destruct Hend as [_ ->]. by split.
Qed.

Example left_arm_of_one_robot :
  collect_loop left_handed hold_init [still true; still true] = stop IndexError ∧
  ended (collect_loop solo hold_init [still true; still true]) = None.
Proof. split; vm_compute; reflexivity. Qed.

(** ** Completion takes eleven passes in a row *)

Lemma completed_after_passes (cl : call) (hold : Z) (ticks : list tick) :
  hold ≤ 10 →
  let r := collect_loop cl hold ticks in
  let m := length (holds r) in
  ended r = Some Completed →
  (needed hold ≤ m)%nat ∧
  ∀ (i : nat) (t : tick),
    (m ≤ i + 11)%nat → (i < m)%nat → ticks !! i = Some t →
    check_success t = true.
Proof.
  revert hold. induction ticks as [|t rest IH]; intros hold Hh; [done|].
  simpl. unfold stop, push, held.
  destruct (robot_of cl) as [rb|] eqn:Hrb; simpl; [|done].
  destruct (device t) as [a|] eqn:Hdev; simpl; [|done].
  destruct (clamp_deadzone a) as [a'|] eqn:Hc; simpl; [|done].
  destruct (Z.eqb_spec hold 0) as [->|Hne]; simpl.
  { intros _. split; [done|]. intros; lia. }
  destruct (max_steps <=? timestamps t); simpl; [done|].
  set (h1 := latch hold (check_success t)).
  assert (h1 ≤ 10) as Hh1
    by (unfold h1, latch; repeat case_match; lia).
  intros Hend. destruct (IH h1 Hh1 Hend) as [Hm Hpass]. clear IH.
  simpl.
  assert (needed hold ≤ S (needed h1))%nat as Hstep.
  { unfold needed, h1, latch. repeat case_match; lia. }
  split; [lia|].
  intros [|i] t0 Hi Hlt; simpl.
  - intros [= <-]. destruct (check_success t) eqn:Hs; [done|].
    change (needed h1) with 11%nat in Hm. simpl in Hi. lia.
  - apply Hpass; simpl in Hi, Hlt; lia.
Qed.

(** X20. From the start of a call, the loop leaves as completed only after
    [_check_success] has answered [True] eleven times in a row: at least
    eleven ticks were evaluated, the eleven evaluated last are all passes,
    and the latch was never asked on the iteration that leaves. *)
Theorem completion_needs_eleven_passes (cl : call) (ticks : list tick) :
  let r := collect_loop cl hold_init ticks in
  let m := length (holds r) in
  ended r = Some Completed →
  (11 ≤ m)%nat ∧
  length (pushed r) = S m ∧
  ∀ (i : nat), (m - 11 ≤ i)%nat → (i < m)%nat →
    ∃ t, ticks !! i = Some t ∧ check_success t = true.
Proof.
  intros r m Hend.
  destruct (completed_after_passes cl hold_init ticks) as [Hm Hpass];
    [done|exact Hend|].
  destruct (collect_loop_accounts cl hold_init ticks) as [Hpush Hcause].
  fold r in Hpush, Hcause, Hm, Hpass. rewrite Hend in Hcause.
  fold m in Hm, Hpass, Hcause.
  split; [exact Hm|]. split; [exact Hcause|].
  intros i Hlo Hhi.
  destruct (lookup_lt_is_Some_2 (pushed r) i) as [b Hb]; [lia|].
  destruct (Hpush i b Hb) as (t & a & Ht & _).
  exists t. split; [done|]. apply (Hpass i t); [lia|done|done].
Qed.

Lemma completion_needs_eleven_passes_witness :
  (11 ≤ length (holds (collect_loop solo hold_init
                         (replicate 12 (still true)))))%nat ∧
  length (pushed (collect_loop solo hold_init (replicate 12 (still true))))
  = S (length (holds (collect_loop solo hold_init
                        (replicate 12 (still true))))) ∧
  ∀ (i : nat),
    (length (holds (collect_loop solo hold_init (replicate 12 (still true))))
     - 11 ≤ i)%nat →
    (i < length (holds (collect_loop solo hold_init
                          (replicate 12 (still true)))))%nat →
    ∃ t, replicate 12 (still true) !! i = Some t ∧ check_success t = true.
Proof.
  apply (completion_needs_eleven_passes solo (replicate 12 (still true))).
  vm_compute. reflexivity.
Defined.

(** ** The budget, as the controller reads it *)

(** X21. The loop leaves over the budget at the first iteration in which
    line 129 reads the counter at [max_steps] or more: in that iteration
    the reading is 500 or more, and in every iteration before it was
    below. *)
Theorem timeout_at_first_full_reading
    (cl : call) (hold : Z) (ticks : list tick) :
  let r := collect_loop cl hold ticks in
  let m := length (holds r) in
  ended r = Some TimedOut →
  (∃ t, ticks !! (m - 1)%nat = Some t ∧ max_steps ≤ timestamps t) ∧
  ∀ (i : nat) (t : tick),
    (i < m - 1)%nat → ticks !! i = Some t → timestamps t < max_steps.
Proof.
  revert hold. induction ticks as [|t rest IH]; intros hold; [done|].
  simpl. unfold stop, push, held.
  destruct (robot_of cl) as [rb|] eqn:Hrb; simpl; [|done].
  destruct (device t) as [a|] eqn:Hdev; simpl; [|done].
  destruct (clamp_deadzone a) as [a'|] eqn:Hc; simpl; [|done].
  destruct (hold =? 0); simpl; [done|].
  destruct (Z.leb_spec max_steps (timestamps t)) as [Hover|Hunder]; simpl.
  { intros _. split; [by exists t|]. intros; lia. }
  intros Hend.
  destruct (IH _ Hend) as [(t1 & Ht1 & Hover) Hbefore]. clear IH.
  destruct (collect_loop_accounts cl (latch hold (check_success t)) rest)
    as [_ Hcause].
  rewrite Hend in Hcause. destruct Hcause as [Hlen Hpos].
  set (m := length (holds (collect_loop cl (latch hold (check_success t)) rest)))
    in *.
  assert (1 ≤ m)%nat as Hm by lia.
  rewrite Nat.sub_0_r. split.
  - exists t1. split; [|done]. destruct m; [lia|].
    simpl in Ht1. by rewrite Nat.sub_0_r in Ht1.
  - intros [|i] t0 Hi; simpl; [by intros [= <-]|].
    apply Hbefore. lia.
Qed.

Lemma timeout_at_first_full_reading_witness :
  (∃ t, late_ticks
        !! (length (holds (collect_loop solo hold_init late_ticks)) - 1)%nat
        = Some t ∧ max_steps ≤ timestamps t) ∧
  ∀ (i : nat) (t : tick),
    (i < length (holds (collect_loop solo hold_init late_ticks)) - 1)%nat →
    late_ticks !! i = Some t → timestamps t < max_steps.
Proof.
  apply (timeout_at_first_full_reading solo hold_init late_ticks).
  vm_compute. reflexivity.
Defined.

End LoopMore.
